(** * TARDIS IO utilities ([tardis/io/util.py]): a shallow embedding

    The development follows the Python module function by function:
    [quantity_from_str], the [YAMLLoader] constructors, the configuration
    comparator ([traverse_configs], [assert_equality], [check_equality]) and
    the HDF writer [to_hdf].  Python exceptions are modelled by an error
    monad, the HDF file by its contents together with a trace of the
    operations performed on it.  The libraries the module calls (the
    builtin [float], numpy, astropy, pandas and its HDF files) are
    interfaces whose operations are taken as parameters, except where the
    module's behaviour depends on what they compute ([str.split], [zip],
    [numpy.allclose], [os.path.join], [OrderedDict]). *)

From Stdlib Require Import ZArith QArith Qabs String Ascii List Bool Lia Lqa.
From stdpp Require Import base option strings gmap sorting.

Set Warnings "-register-all".
Close Scope Q_scope.
Open Scope string_scope.
Open Scope list_scope.

(** ** Python exceptions and results *)

Inductive exn : Type :=
| AssertionError
| KeyError (key : string)
| TypeError
| ValueError
| NotImplementedError.

Inductive result (A : Type) : Type :=
| Ok (a : A)
| Raise (e : exn).
Arguments Ok {A} a.
Arguments Raise {A} e.

#[global] Instance result_ret : MRet result := fun _ a => Ok a.
#[global] Instance result_bind : MBind result := fun _ _ f m =>
  match m with
  | Ok a => f a
  | Raise e => Raise e
  end.

(** [assert cond] *)
Definition assert (cond : bool) : result () :=
  if cond then Ok () else Raise AssertionError.

(** ** Python byte strings: [isspace], [strip], [split(None, 1)] *)

Module PyStr.

(** Whitespace of a Python 2 [str]: space, and the control characters
    tab, line feed, vertical tab, form feed, carriage return. *)
Definition isspace (c : ascii) : bool :=
  let n := nat_of_ascii c in
  Nat.eqb n 32 || (Nat.leb 9 n && Nat.leb n 13).

Fixpoint lstrip (s : string) : string :=
  match s with
  | String c s' => if isspace c then lstrip s' else s
  | EmptyString => EmptyString
  end.

Fixpoint rstrip (s : string) : string :=
  match s with
  | EmptyString => EmptyString
  | String c s' =>
      match rstrip s' with
      | EmptyString => if isspace c then EmptyString else String c EmptyString
      | r => String c r
      end
  end.

(** [s.strip()] *)
Definition strip (s : string) : string := rstrip (lstrip s).

(** The longest prefix without whitespace, and what follows it. *)
Fixpoint span_word (s : string) : string * string :=
  match s with
  | EmptyString => (EmptyString, EmptyString)
  | String c s' =>
      if isspace c then (EmptyString, s)
      else let (w, r) := span_word s' in (String c w, r)
  end.

(** [text.split(None, 1)]: leading whitespace is skipped, the first word
    is cut at the first run of whitespace, that run is skipped, and what
    remains, when not empty, is the second item (its trailing whitespace
    is kept). *)
Definition split_None_1 (text : string) : list string :=
  match lstrip text with
  | EmptyString => []
  | s =>
      let (w, rest) := span_word s in
      match lstrip rest with
      | EmptyString => [w]
      | r => [w; r]
      end
  end.

(** Every character of the string is whitespace / none is. *)
Fixpoint all_space (s : string) : bool :=
  match s with
  | EmptyString => true
  | String c s' => isspace c && all_space s'
  end.

Fixpoint no_space (s : string) : bool :=
  match s with
  | EmptyString => true
  | String c s' => negb (isspace c) && no_space s'
  end.

End PyStr.

(** ** Python floats

    A float is a finite value, an infinity or NaN.  A finite value is the
    rational number the 64-bit representation stands for.  Where the
    outcome of the module depends on how an operation rounds or overflows,
    the operation is left to the library ([FloatLib] below). *)

Inductive pyfloat : Type :=
| Finite (q : Q)
| Inf (negative : bool)
| NaN.

Definition float_add (a b : pyfloat) : pyfloat :=
  match a, b with
  | NaN, _ | _, NaN => NaN
  | Finite x, Finite y => Finite (x + y)%Q
  | Finite _, Inf s | Inf s, Finite _ => Inf s
  | Inf s1, Inf s2 => if Bool.eqb s1 s2 then Inf s1 else NaN
  end.

Definition float_is_nan (a : pyfloat) : bool :=
  match a with NaN => true | _ => false end.

(** [a == b] on floats (IEEE: NaN equals nothing). *)
Definition float_eqb (a b : pyfloat) : bool :=
  match a, b with
  | Finite x, Finite y => Qeq_bool x y
  | Inf s1, Inf s2 => Bool.eqb s1 s2
  | _, _ => false
  end.

(** ** The libraries the module calls *)

(** The builtin [float] and what numpy and pandas compute on 64-bit
    floats. *)
Class FloatLib : Type := {
  (** [float(s)]; [None] stands for the [ValueError] it raises *)
  float_of_str : string -> option pyfloat;
  (** [np.log10] *)
  np_log10 : pyfloat -> pyfloat;
  (** [a ** b] on numpy floats (overflow gives an infinity, no exception) *)
  float_pow : pyfloat -> pyfloat -> pyfloat;
  (** [abs(x - y) <= rtol * abs(y)] as 64-bit arithmetic decides it for
      two finite values whose distance is within a ten-thousandth of the
      tolerance, where the rounding of the difference and of the product
      matters (see [allclose]) *)
  isclose_rounded : Q -> Q -> bool;
  (** [Series.sum()]: the sum of 64-bit floats, rounded, an infinity when
      it overflows *)
  Series_sum : list pyfloat -> pyfloat;
  (** [a / b] on numpy floats, rounded *)
  float_div : pyfloat -> pyfloat -> pyfloat;
}.

(** [astropy.units] and [astropy.constants]. *)
Class UnitSystem : Type := {
  aunit : Type;
  (** [u1 == u2] *)
  unit_eqb : aunit -> aunit -> bool;
  (** [u.Unit(s)]; [None] stands for the [ValueError] it raises *)
  Unit : string -> option aunit;
  (** [Quantity(x, u).cgs.value] *)
  cgs_value : aunit -> pyfloat -> pyfloat;
  (** [constants.L_sun.cgs.value] *)
  L_sun_cgs : pyfloat;
}.

Section Quantities.
Context `{FL : FloatLib} `{US : UnitSystem}.

(** [astropy.units.Quantity] with a scalar value. *)
Record Quantity : Type := mkQuantity {
  Quantity_value : pyfloat;
  Quantity_unit : aunit;
}.

(** [float(s)] *)
Definition float (s : string) : result pyfloat :=
  match float_of_str s with
  | Some x => Ok x
  | None => Raise ValueError
  end.

(** [u.Quantity(value, unit)] with the unit given as a string. *)
Definition Quantity_of (value : pyfloat) (unit : string) : result Quantity :=
  match Unit unit with
  | Some u => Ok (mkQuantity value u)
  | None => Raise ValueError
  end.

(** [quantity_from_str(text)] (lines 45-61).  Unpacking the result of [split] into two
    names raises [ValueError] unless it has exactly two items. *)
Definition quantity_from_str (text : string) : result Quantity :=
  match PyStr.split_None_1 text with
  | [value_str; unit] =>
      value ← float value_str;
      if String.eqb (PyStr.strip unit) "log_lsun" then
        Quantity_of
          (float_pow (Finite 10) (float_add value (np_log10 L_sun_cgs)))
          "erg/s"
      else Quantity_of value unit
  | _ => Raise ValueError
  end.

End Quantities.

(** ** Configuration trees

    What the loader builds and the comparator walks: mappings with string
    keys (an [OrderedDict], the items in insertion order), lists, and the
    leaves [None], booleans, integers, floats, strings and Quantities. *)

Section ConfigTree.
Context `{US : UnitSystem}.

Inductive leaf : Type :=
| LNone
| LBool (b : bool)
| LInt (n : Z)
| LFloat (x : pyfloat)
| LStr (s : string)
| LQuantity (q : Quantity).

Inductive config : Type :=
| Leaf (x : leaf)
| PyList (items : list config)
| PyDict (items : list (string * config)).

End ConfigTree.

(** ** Ordered dictionaries *)

Module OrderedDict.
Section Dict.
Context {V : Type}.

(** [d[k]], [None] when the key is absent. *)
Fixpoint get (d : list (string * V)) (k : string) : option V :=
  match d with
  | [] => None
  | (k', v) :: d' => if String.eqb k' k then Some v else get d' k
  end.

(** [d[k] = v]: the value of an existing key is replaced where the key
    stands, a new key goes to the end. *)
Fixpoint set (d : list (string * V)) (k : string) (v : V) : list (string * V) :=
  match d with
  | [] => [(k, v)]
  | (k', v') :: d' =>
      if String.eqb k' k then (k', v) :: d' else (k', v') :: set d' k v
  end.

(** [OrderedDict(pairs)] *)
Definition of_pairs (pairs : list (string * V)) : list (string * V) :=
  fold_left (fun d kv => set d (fst kv) (snd kv)) pairs [].

(** The keys in iteration order. *)
Definition keys (d : list (string * V)) : list string := map fst d.

End Dict.

(** The first occurrence of every string of the list, in order. *)
Fixpoint first_occurrences (seen l : list string) : list string :=
  match l with
  | [] => []
  | k :: l' =>
      if existsb (String.eqb k) seen then first_occurrences seen l'
      else k :: first_occurrences (k :: seen) l'
  end.

End OrderedDict.

(** ** The YAML loader *)

(** A YAML node after tag resolution.  Mapping keys are plain string
    scalars, as in the configuration trees; mapping nodes carry the default
    mapping tag. *)
Inductive node : Type :=
| ScalarNode (tag : string) (text : string)
| SequenceNode (items : list node)
| MappingNode (pairs : list (string * node)).

(** The scalar constructors [yaml.Loader] already has (for every tag other
    than [!quantity]). *)
Class YamlLib `{US : UnitSystem} : Type := {
  construct_yaml_scalar : string -> string -> result leaf;
}.

(** Apply a fallible function to every item, left to right, stopping at the
    first exception. *)
Definition mapM {A B : Type} (f : A -> result B) : list A -> result (list B) :=
  fix go (l : list A) : result (list B) :=
    match l with
    | [] => Ok []
    | x :: l' => y ← f x; ys ← go l'; mret (y :: ys)
    end.

Module YAMLLoader.
Section Loader.
Context `{FL : FloatLib} `{YL : YamlLib}.

(** [construct_quantity(self, node)] on the node's text (lines 70-88). *)
Definition construct_quantity (data : string) : result Quantity :=
  quantity_from_str data.

(** [construct_pairs(node)]: the (key, value) pairs of a mapping node in
    document order, every value constructed. *)
Definition construct_pairs (construct_object : node -> result config)
    (pairs : list (string * node)) : result (list (string * config)) :=
  mapM (fun kv => v ← construct_object (snd kv); mret (fst kv, v)) pairs.

(** [mapping_constructor(self, node)] (lines 90-91), registered for the
    default mapping tag (lines 98-99). *)
Definition mapping_constructor (construct_object : node -> result config)
    (pairs : list (string * node)) : result config :=
  items ← construct_pairs construct_object pairs;
  mret (PyDict (OrderedDict.of_pairs items)).

(** [construct_object]: the object a node stands for once the document is
    loaded, built by the constructor registered for the node's tag (lines
    93-99 for [!quantity] and for mappings).  PyYAML fills the list of a
    sequence after the mapping around it is built; the loaded tree is the
    same, and when two nodes fail the exception may be that of the other
    one. *)
Fixpoint construct_object (n : node) : result config :=
  match n with
  | ScalarNode tag text =>
      if String.eqb tag "!quantity" then
        q ← construct_quantity text; mret (Leaf (LQuantity q))
      else
        x ← construct_yaml_scalar tag text; mret (Leaf x)
  | SequenceNode items =>
      l ← mapM construct_object items; mret (PyList l)
  | MappingNode pairs => mapping_constructor construct_object pairs
  end.

End Loader.
End YAMLLoader.

(** ** numpy's closeness test *)

(** The default of [np.allclose]'s [rtol] argument, [1e-05]. *)
Definition rtol_default : Q := 1 # 100000.

(** Just below and just above [rtol_default]: [0.9999e-05] and
    [1.0001e-05]. *)
Definition rtol_below : Q := 9999 # 1000000000.
Definition rtol_above : Q := 10001 # 1000000000.

(** [1e-324] *)
Definition tiny : Q := 1 # 10 ^ 324.

(** A product [rtol * abs(y)] that falls below the normal range of 64-bit
    floats is rounded to a multiple of [2 ** -1074] and so may exceed the
    exact product by up to [2 ** -1075 < 3e-324].  No float other than
    zero is smaller than [4e-324] in magnitude. *)
Definition underflow (y : Q) : Q :=
  if Qle_bool (4 * tiny) (Qabs y) then 3 * tiny else 0.

Section Closeness.
Context `{FL : FloatLib}.

(** [np.allclose(a, b, atol=0.0)] on two scalars, [rtol] keeping its
    default: numpy computes [abs(a - b) <= atol + rtol * abs(b)] on finite
    values, in 64-bit floats (integers are converted first); infinities
    are close when they are equal and NaN is close to nothing.  The
    difference of two floats within a factor two of each other is exact
    and rounding is monotone, so the test holds when
    [|a - b| <= rtol_below * |b|]; the relative error of one operation,
    and of the conversion of an integer, is at most [2 ** -53], so it
    fails when [|a - b| > rtol_above * |b| + underflow b].  Between the
    two the rounded operations decide. *)
Definition allclose (a b : pyfloat) : bool :=
  match a, b with
  | Finite x, Finite y =>
      if Qle_bool (Qabs (x - y)) (rtol_below * Qabs y) then true
      else if Qle_bool (Qabs (x - y)) (rtol_above * Qabs y + underflow y)
      then isclose_rounded x y
      else false
  | Inf s1, Inf s2 => Bool.eqb s1 s2
  | _, _ => false
  end.

End Closeness.

(** ** The configuration comparator *)

Section Comparator.
Context `{FL : FloatLib} `{US : UnitSystem}.

(** [other[k]]: a mapping raises [KeyError] for an absent key; lists,
    strings, numbers, [None] and scalar Quantities raise [TypeError] for a
    string index. *)
Definition getitem (other : config) (k : string) : result config :=
  match other with
  | PyDict d =>
      match OrderedDict.get d k with
      | Some v => Ok v
      | None => Raise (KeyError k)
      end
  | _ => Raise TypeError
  end.

(** [iter(other)], as [zip] calls it: the items of a list, the keys of a
    mapping, the characters of a string; [TypeError] for what is not
    iterable (numbers, [None], scalar Quantities). *)
Definition iter (other : config) : result (list config) :=
  match other with
  | PyList l => Ok l
  | PyDict d => Ok (map (fun kv => Leaf (LStr (fst kv))) d)
  | Leaf (LStr s) =>
      Ok (map (fun c => Leaf (LStr (String c EmptyString)))
              (list_ascii_of_string s))
  | Leaf _ => Raise TypeError
  end.

(** [traverse_configs(base, other, func)] (lines 123-148).  A mapping [base] is walked key
    by key ([base[k]] is the value stored with [k]); a list [base] is
    zipped with [other], the zip being built before the first call; a
    string, a Quantity (which has a [shape]) and every other value is a
    leaf handed to [func]. *)
Fixpoint traverse_configs (base other : config)
    (func : leaf -> config -> result ()) : result () :=
  match base with
  | PyDict d =>
      (fix for_k (items : list (string * config)) : result () :=
         match items with
         | [] => Ok ()
         | (k, base_k) :: items' =>
             other_k ← getitem other k;
             traverse_configs base_k other_k func;;
             for_k items'
         end) d
  | PyList l =>
      zipped ← iter other;
      (fix for_val (l1 l2 : list config) : result () :=
         match l1, l2 with
         | val1 :: l1', val2 :: l2' =>
             traverse_configs val1 val2 func;;
             for_val l1' l2'
         | _, _ => Ok ()
         end) l zipped
  | Leaf x => func x other
  end.

(** [type(item1) is type(item2)] for two leaves. *)
Definition same_type (item1 item2 : leaf) : bool :=
  match item1, item2 with
  | LNone, LNone | LBool _, LBool _ | LInt _, LInt _ | LFloat _, LFloat _
  | LStr _, LStr _ | LQuantity _, LQuantity _ => true
  | _, _ => false
  end.

(** The integers numpy holds in a 64-bit array ([int64] or [uint64]); a
    larger integer becomes an array of Python objects. *)
Definition fits_64_bits (n : Z) : bool :=
  (Z.leb (- 2 ^ 63) n && Z.ltb n (2 ^ 64))%Z.

(** The number numpy sees in a leaf: booleans count as 0 and 1, an integer
    of at most 64 bits as itself, a Quantity gives its value; strings,
    [None] and larger integers are not numbers numpy computes with. *)
Definition as_number (x : leaf) : option pyfloat :=
  match x with
  | LBool b => Some (Finite (if b then 1 else 0)%Q)
  | LInt n => if fits_64_bits n then Some (Finite (inject_Z n)) else None
  | LFloat a => Some a
  | LQuantity q => Some (Quantity_value q)
  | LNone | LStr _ => None
  end.

(** [np.allclose(item1, item2, atol=0.0)]: [rtol] keeps its default;
    [TypeError] when a leaf is not a number ([np.isfinite] rejects arrays
    of strings and of objects). *)
Definition np_allclose (item1 item2 : leaf) : result bool :=
  match as_number item1, as_number item2 with
  | Some a, Some b => Ok (allclose a b)
  | _, _ => Raise TypeError
  end.

(** [item1 == item2] on two leaves of one type, which the [except] clause
    falls back to (strings, [None] and integers of more than 64 bits, for
    which [np.allclose] raises). *)
Definition leaf_eqb (item1 item2 : leaf) : bool :=
  match item1, item2 with
  | LNone, LNone => true
  | LBool a, LBool b => Bool.eqb a b
  | LInt a, LInt b => Z.eqb a b
  | LFloat a, LFloat b => float_eqb a b
  | LStr a, LStr b => String.eqb a b
  | LQuantity a, LQuantity b =>
      unit_eqb (Quantity_unit a) (Quantity_unit b)
      && float_eqb (Quantity_value a) (Quantity_value b)
  | _, _ => false
  end.

Definition hasattr_unit (x : leaf) : bool :=
  match x with LQuantity _ => true | _ => false end.

(** [item.unit == other.unit] where both leaves are Quantities. *)
Definition unit_equal (item1 item2 : leaf) : bool :=
  match item1, item2 with
  | LQuantity a, LQuantity b => unit_eqb (Quantity_unit a) (Quantity_unit b)
  | _, _ => true
  end.

(** [assert_equality(item1, item2)] (lines 151-158), [item1] being a leaf
    of [base].  The first assertion fails when [item2] is a mapping or a
    list, whose type no leaf has.  The [except] clause handles
    [ValueError] and [TypeError] of the [try] body only; an
    [AssertionError] passes through it. *)
Definition assert_equality (item1 : leaf) (item2 : config) : result () :=
  match item2 with
  | Leaf item2 =>
      assert (same_type item1 item2);;
      match
        (if hasattr_unit item1 then assert (unit_equal item1 item2)
         else Ok ());;
        close ← np_allclose item1 item2;
        assert close
      with
      | Raise ValueError | Raise TypeError => assert (leaf_eqb item1 item2)
      | r => r
      end
  | _ => Raise AssertionError
  end.

(** [check_equality(item1, item2)] (lines 161-167). *)
Definition check_equality (item1 item2 : config) : result bool :=
  match traverse_configs item1 item2 assert_equality with
  | Raise AssertionError => Ok false
  | Raise e => Raise e
  | Ok _ => Ok true
  end.

(** What [assert_equality] asserts of two leaves, all in one: the types
    agree, the units agree, and the values are close (numbers) or equal
    (strings, [None]). *)
Definition leaf_close (x y : leaf) : bool :=
  same_type x y && unit_equal x y
  && match as_number x, as_number y with
     | Some a, Some b => allclose a b
     | _, _ => leaf_eqb x y
     end.

End Comparator.

(** ** The HDF writer *)

(** [os.path.join(a, b)] (posixpath). *)
Definition os_path_join (a b : string) : string :=
  if String.prefix "/" b then b
  else if String.eqb a "" || String.eqb (String.substring (String.length a - 1) 1 a) "/"
       then a ++ b
       else a ++ "/" ++ b.

(** What [np.isscalar] accepts: Python and numpy numbers, strings and
    booleans. *)
Inductive scalar : Type :=
| SInt (n : Z)
| SFloat (x : pyfloat)
| SStr (s : string)
| SBool (b : bool).

(** A numpy array: its shape and its items in row-major order. *)
Record ndarray : Type := mkArray {
  shape : list nat;
  data : list pyfloat;
}.

Definition ndim (a : ndarray) : nat := length (shape a).

(** The index label of a row of a Series. *)
Inductive label : Type :=
| Pos (i : nat)
| Name (s : string).

(** pandas, and the Python objects [to_hdf] passes through untouched. *)
Class PandasLib : Type := {
  (** values that are neither scalars nor arrays (lists, [None], ...) *)
  pyobj : Type;
  (** the rows of [pd.Series(d)] for a dict [d], in the order pandas gives
      them *)
  Series_of_dict : gmap string scalar -> list (label * scalar);
  (** whether [pd.Series(a).to_hdf] can store the array; it raises
      [NotImplementedError] otherwise *)
  series_storable : ndarray -> bool;
}.

Section PandasObjects.
Context `{PL : PandasLib}.

(** What is stored under a key of the HDF file. *)
Inductive pdobj : Type :=
| Series (rows : list (label * scalar))
| DataFrame (cells : ndarray)
| DataFrameOf (row : pyobj).

End PandasObjects.

(** The HDF files of pandas.  How a key names a node of the file (keys
    are paths, with or without a leading slash) and what a write does to
    the nodes under or above the one it writes is the library's. *)
Class HdfLib `{PL : PandasLib} : Type := {
  (** the contents of an HDF file *)
  hdf_file : Type;
  (** the contents after [obj.to_hdf(path_or_buf, key)] *)
  hdf_put : string -> pdobj -> hdf_file -> hdf_file;
  (** [key in store] *)
  hdf_contains : string -> hdf_file -> bool;
  (** [store[key]] *)
  hdf_getitem : string -> hdf_file -> result pdobj;
  (** whether [pd.HDFStore(path_or_buf, complevel=..., complib=...)] opens
      the file; it raises [ValueError] for a compression library it does
      not know and for a level outside 0..9 *)
  hdf_opens : nat -> string -> bool;
}.

Section Hdf.
Context `{US : UnitSystem} `{PL : PandasLib} `{HL : !HdfLib}.

(** The values of the [elements] dict. *)
Inductive element : Type :=
| EScalar (x : scalar)
| EArray (a : ndarray)
| EQuantity (q : Quantity)
| EQuantityArray (a : ndarray) (u : aunit)
| EOther (o : pyobj).

(** The operations on the HDF file, in the order they happen. *)
Inductive event : Type :=
| Put (key : string)
| Open (complevel : nat) (complib : string)
| Contains (key : string)
| Getitem (key : string)
| Close.

(** The HDF file [path_or_buf] names: its contents, and the operations
    performed on the file so far. *)
Record hdf : Type := mkHdf {
  contents : hdf_file;
  trace : list event;
}.

Definition log (e : event) (f : hdf) : hdf :=
  mkHdf (contents f) (trace f ++ [e]).

(** Computations on the file that may raise. *)
Definition io (A : Type) : Type := hdf -> hdf * result A.

Definition io_ret {A : Type} (a : A) : io A := fun f => (f, Ok a).

Definition io_bind {A B : Type} (m : io A) (k : A -> io B) : io B :=
  fun f =>
    match m f with
    | (f', Ok a) => k a f'
    | (f', Raise e) => (f', Raise e)
    end.

Definition io_raise {A : Type} (e : exn) : io A := fun f => (f, Raise e).

(** [try: body except NotImplementedError: handler] *)
Definition io_except_NotImplementedError {A : Type}
    (body handler : io A) : io A :=
  fun f =>
    match body f with
    | (f', Raise NotImplementedError) => handler f'
    | r => r
    end.

(** [with pd.HDFStore(...) as store: body]: when the store does not open
    the body is not run; once it is open it is closed on every way out of
    the body. *)
Definition io_with_store {A : Type} (complevel : nat) (complib : string)
    (body : io A) : io A :=
  fun f =>
    if hdf_opens complevel complib then
      match body (log (Open complevel complib) f) with
      | (f', r) => (log Close f', r)
      end
    else (f, Raise ValueError).

Notation "x <- m ; k" := (io_bind m (fun x => k))
  (at level 100, m at next level, right associativity, only parsing).
Notation "m ;; k" := (io_bind m (fun _ => k))
  (at level 100, right associativity, only parsing).

(** [obj.to_hdf(path_or_buf, key)] *)
Definition obj_to_hdf (obj : pdobj) (key : string) : io () :=
  fun f => (mkHdf (hdf_put key obj (contents f)) (trace f ++ [Put key]), Ok ()).

(** [key in store] *)
Definition store_contains (key : string) : io bool :=
  fun f => (log (Contains key) f, Ok (hdf_contains key (contents f))).

(** [store[key]] *)
Definition store_getitem (key : string) : io pdobj :=
  fun f => (log (Getitem key) f, hdf_getitem key (contents f)).

(** [pd.Series(value)] for a one-dimensional array. *)
Definition Series_of_array (a : ndarray) : pdobj :=
  Series (imap (fun i x => (Pos i, SFloat x)) (data a)).

(** [pd.Series(value).to_hdf(path_or_buf, key)] *)
Definition series_to_hdf (a : ndarray) (key : string) : io () :=
  if series_storable a then obj_to_hdf (Series_of_array a) key
  else io_raise NotImplementedError.

(** [pd.DataFrame(value)] for an array: one column for a one-dimensional
    array, the array itself for a two-dimensional one, [ValueError]
    otherwise. *)
Definition DataFrame_of_array (a : ndarray) : result pdobj :=
  match shape a with
  | [n] => Ok (DataFrame (mkArray [n; 1%nat] (data a)))
  | [_; _] => Ok (DataFrame a)
  | _ => Raise ValueError
  end.

(** [pd.DataFrame(value).to_hdf(path_or_buf, key)] *)
Definition frame_to_hdf (a : ndarray) (key : string) : io () :=
  match DataFrame_of_array a with
  | Ok obj => obj_to_hdf obj key
  | Raise e => io_raise e
  end.

(** [series.append(to_append)] on what [store[key]] returned: the rows of a
    Series are followed by the appended rows; a DataFrame refuses a Series
    that has no name. *)
Definition append (old : pdobj) (to_append : list (label * scalar)) : result pdobj :=
  match old with
  | Series rows => Ok (Series (rows ++ to_append))
  | _ => Raise TypeError
  end.

(** A value once its unit is gone: what [np.isscalar] accepts, what has a
    [shape], and the rest. *)
Inductive plain : Type :=
| PScalar (x : scalar)
| PArray (a : ndarray)
| POther (o : pyobj).

(** [if hasattr(value, 'cgs'): value = value.cgs.value] *)
Definition cgs (value : element) : plain :=
  match value with
  | EQuantity q =>
      PScalar (SFloat (cgs_value (Quantity_unit q) (Quantity_value q)))
  | EQuantityArray a u => PArray (mkArray (shape a) (map (cgs_value u) (data a)))
  | EScalar x => PScalar x
  | EArray a => PArray a
  | EOther o => POther o
  end.

(** [np.isscalar(value)] once the unit is gone. *)
Definition isscalar (value : element) : bool :=
  match cgs value with PScalar _ => true | _ => false end.

(** The body of the [for] loop of [to_hdf] (lines 197-214) for one item of
    [elements];
    the result is the [scalars] dict after the item. *)
Definition to_hdf_item (path : string) (scalars : gmap string scalar)
    (key : string) (value : element) : io (gmap string scalar) :=
  match cgs value with
  | PScalar x => io_ret (<[key := x]> scalars)
  | PArray a =>
      (if Nat.eqb (ndim a) 1 then
         io_except_NotImplementedError
           (series_to_hdf a (os_path_join path key))
           (frame_to_hdf a (os_path_join path key))
       else frame_to_hdf a (os_path_join path key));;
      io_ret scalars
  | POther o =>
      obj_to_hdf (DataFrameOf o) (os_path_join path key);;
      io_ret scalars
  end.

(** The [for] loop of [to_hdf] over the items of [elements], in iteration
    order. *)
Fixpoint to_hdf_loop (path : string) (items : list (string * element))
    (scalars : gmap string scalar) : io (gmap string scalar) :=
  match items with
  | [] => io_ret scalars
  | (key, value) :: items' =>
      scalars' <- to_hdf_item path scalars key value;
      to_hdf_loop path items' scalars'
  end.

(** The statements of [to_hdf] under [if scalars:] (lines 217-224). *)
Definition to_hdf_scalars (path : string) (scalars : gmap string scalar)
    (complevel : nat) (complib : string) : io () :=
  let scalars_series := Series_of_dict scalars in
  let scalars_path := os_path_join path "scalars" in
  scalars_series <-
    io_with_store complevel complib
      (found <- store_contains scalars_path;
       if (found : bool) then
         old <- store_getitem scalars_path;
         match append old scalars_series with
         | Ok obj => io_ret obj
         | Raise e => io_raise e
         end
       else io_ret (Series scalars_series));
  obj_to_hdf scalars_series (os_path_join path "scalars").

(** [to_hdf(path_or_buf, path, elements, complevel, complib)] (lines
    170-224); the file [path_or_buf] names is the state of [io]. *)
Definition to_hdf (path : string) (elements : list (string * element))
    (complevel : nat) (complib : string) : io () :=
  scalars <- to_hdf_loop path elements ∅;
  if bool_decide (scalars ≠ ∅)
  then to_hdf_scalars path scalars complevel complib
  else io_ret ().

End Hdf.

(** ** Predicates on configuration trees used by the statements *)

Section TreePredicates.
Context `{US : UnitSystem}.

(** No float or Quantity of the tree is NaN. *)
Definition leaf_nan_free (x : leaf) : bool :=
  match x with
  | LFloat a => negb (float_is_nan a)
  | LQuantity q => negb (float_is_nan (Quantity_value q))
  | _ => true
  end.

Fixpoint nan_free (c : config) : bool :=
  match c with
  | Leaf x => leaf_nan_free x
  | PyList l => forallb nan_free l
  | PyDict d => forallb (fun kv => nan_free (snd kv)) d
  end.

(** The strings of the list are pairwise different. *)
Fixpoint distinct (l : list string) : bool :=
  match l with
  | [] => true
  | k :: l' => negb (existsb (String.eqb k) l') && distinct l'
  end.

(** Every mapping of the tree has each key once, as a Python dict has. *)
Fixpoint unique_keys (c : config) : bool :=
  match c with
  | Leaf _ => true
  | PyList l => forallb unique_keys l
  | PyDict d => distinct (map fst d) && forallb (fun kv => unique_keys (snd kv)) d
  end.

(** [corresponds base other x y]: walking [base] along [other] as
    [traverse_configs] does reaches the leaf [x] of [base] together with
    the value [y] of [other]. *)
Inductive corresponds : config -> config -> leaf -> config -> Prop :=
| corresponds_leaf (x : leaf) (other : config) :
    corresponds (Leaf x) other x other
| corresponds_dict (d : list (string * config)) (other : config)
    (k : string) (base_k other_k : config) (x : leaf) (y : config) :
    In (k, base_k) d ->
    getitem other k = Ok other_k ->
    corresponds base_k other_k x y ->
    corresponds (PyDict d) other x y
| corresponds_list (l zipped : list config) (other : config) (i : nat)
    (val1 val2 : config) (x : leaf) (y : config) :
    iter other = Ok zipped ->
    nth_error l i = Some val1 ->
    nth_error zipped i = Some val2 ->
    corresponds val1 val2 x y ->
    corresponds (PyList l) other x y.

End TreePredicates.

(** ** A small implementation of the libraries, to run the definitions *)

Module Reference.

Definition digit_of (c : ascii) : option Z :=
  let n := nat_of_ascii c in
  if Nat.leb 48 n && Nat.leb n 57 then Some (Z.of_nat (n - 48)) else None.

(** The digits of [s] read into the numerator [num], the denominator [den]
    multiplied by [scale] for each digit; [None] on any other character. *)
Fixpoint read_digits (s : string) (scale : positive) (num : Z) (den : positive)
  : option (Z * positive) :=
  match s with
  | EmptyString => Some (num, den)
  | String c s' =>
      match digit_of c with
      | Some d => read_digits s' scale (10 * num + d)%Z (scale * den)%positive
      | None => None
      end
  end.

(** The integer part up to the point, and what follows the point. *)
Fixpoint cut_at_point (s : string) : string * option string :=
  match s with
  | EmptyString => (EmptyString, None)
  | String c s' =>
      if Ascii.eqb c "."%char then (EmptyString, Some s')
      else let (i, f) := cut_at_point s' in (String c i, f)
  end.

(** Unsigned decimal literals such as [12], [2.0] and [.5]. *)
Definition decimal_of_str (s : string) : option pyfloat :=
  let (int_part, frac_part) := cut_at_point s in
  let frac := default EmptyString frac_part in
  if String.eqb (int_part ++ frac) "" then None
  else
    match read_digits int_part 1 0 1 with
    | Some (n, _) =>
        match read_digits frac 10 n 1 with
        | Some (num, den) => Some (Finite (Qred (num # den)))
        | None => None
        end
    | None => None
    end.

(** An estimate of the number of decimal digits of a positive integer,
    minus one (1233/4096 approximates the logarithm of 2 in base 10). *)
Definition floor_log10 (n : Z) : Z := Z.log2 n * 1233 / 4096.

(** [float] reads unsigned decimals; [log10] and [**] are coarse stand-ins
    (the logarithm is rounded down, the exponent truncated): the examples
    do not depend on their values.  Sums, quotients and the closeness test
    are computed without rounding. *)
#[export] Instance floats : FloatLib := {
  float_of_str := decimal_of_str;
  np_log10 x :=
    match x with
    | Finite q =>
        if Qle_bool q 0 then NaN
        else Finite (inject_Z (floor_log10 (Qnum q / Z.pos (Qden q))))
    | Inf false => Inf false
    | _ => NaN
    end;
  float_pow a b :=
    match a, b with
    | Finite x, Finite y => Finite (Qpower x (Qnum y / Z.pos (Qden y)))
    | _, _ => NaN
    end;
  isclose_rounded x y := Qle_bool (Qabs (x - y)) (rtol_default * Qabs y);
  Series_sum values := fold_right float_add (Finite 0) values;
  float_div a b :=
    match a, b with
    | Finite x, Finite y =>
        if Qeq_bool y 0 then
          if Qeq_bool x 0 then NaN else Inf (negb (Qle_bool 0 x))
        else Finite (x / y)
    | Finite _, Inf _ => Finite 0
    | Inf s, Finite y => Inf (xorb s (negb (Qle_bool 0 y)))
    | _, _ => NaN
    end;
}.

(** Units are the unit strings themselves; a handful are known. *)
#[export] Instance units : UnitSystem := {
  aunit := string;
  unit_eqb := String.eqb;
  Unit s :=
    if existsb (String.eqb (PyStr.strip s)) ["erg/s"; "erg"; "cm"; "s"; "K"]
    then Some (PyStr.strip s) else None;
  cgs_value _ x := x;
  L_sun_cgs := Finite (3846 * 10 ^ 30);
}.

#[export] Instance yaml : YamlLib := {
  construct_yaml_scalar tag text :=
    if String.eqb tag "tag:yaml.org,2002:float" then
      match decimal_of_str text with
      | Some x => Ok (LFloat x)
      | None => Raise ValueError
      end
    else if String.eqb tag "tag:yaml.org,2002:null" then Ok LNone
    else Ok (LStr text);
}.

#[export] Instance pandas : PandasLib := {
  pyobj := list Z;
  Series_of_dict d := map (fun kv => (Name (fst kv), snd kv)) (map_to_list d);
  series_storable _ := true;
}.

(** Sample values. *)

Definition cab_pairs : list (string * node) :=
  [("c", ScalarNode "tag:yaml.org,2002:str" "x");
   ("a", SequenceNode [ScalarNode "tag:yaml.org,2002:float" "0.5"]);
   ("b", ScalarNode "!quantity" "2.0 erg/s")].

Definition sample_tree : config :=
  PyDict
    [("a", PyList [Leaf (LFloat (Finite (1 # 2))); Leaf (LStr "s"); Leaf LNone]);
     ("q", Leaf (LQuantity (mkQuantity (US := units) (Inf false) "erg/s")));
     ("n", PyDict [("flag", Leaf (LBool true)); ("count", Leaf (LInt 7))])].

(** The node a key names: the key without its leading slash. *)
Definition node_of (key : string) : string :=
  match key with
  | String "/" key' => key'
  | _ => key
  end.

(** A file is the object stored at each node; a write replaces the object
    of the node it names and leaves the other nodes alone. *)
#[export] Instance files : HdfLib := {
  hdf_file := gmap string pdobj;
  hdf_put key obj file := <[node_of key := obj]> file;
  hdf_contains key file := bool_decide (is_Some (file !! node_of key));
  hdf_getitem key file :=
    match file !! node_of key with
    | Some obj => Ok obj
    | None => Raise (KeyError key)
    end;
  hdf_opens complevel complib :=
    Nat.leb complevel 9
    && existsb (String.eqb complib) ["zlib"; "lzo"; "bzip2"; "blosc"];
}.

(** A file that holds one scalar record, written by an earlier call. *)
Definition stored_file : hdf :=
  mkHdf {[ "p/scalars" := Series [(Name "a", SFloat (Finite 5))] ]} [].

End Reference.

(** ** Notions used by the statements on the HDF writer *)

Section HdfNotions.
Context `{US : UnitSystem} `{PL : PandasLib} `{HL : !HdfLib}.

(** What the loop of [to_hdf] does with an item that is no scalar: the
    object it stores, or the exception it raises before storing
    anything.  A one-dimensional array is stored as a Series when pandas
    can, as a DataFrame otherwise; an array of two dimensions as a
    DataFrame; an array of another number of dimensions makes
    [pd.DataFrame] raise; anything else is stored as a DataFrame of one
    row. *)
Definition item_write (value : element) : option (result pdobj) :=
  match cgs value with
  | PScalar _ => None
  | PArray a =>
      Some (if Nat.eqb (ndim a) 1 && series_storable a
            then Ok (Series_of_array a)
            else DataFrame_of_array a)
  | POther o => Some (Ok (DataFrameOf o))
  end.

(** The writes of the loop over [items], in order: the key and the object
    of each item that is no scalar. *)
Fixpoint item_writes (path : string) (items : list (string * element))
  : list (string * pdobj) :=
  match items with
  | [] => []
  | (key, value) :: items' =>
      match item_write value with
      | Some (Ok obj) => (os_path_join path key, obj) :: item_writes path items'
      | _ => item_writes path items'
      end
  end.

(** The contents of a file after a list of writes. *)
Definition hdf_puts (writes : list (string * pdobj)) (file : hdf_file)
  : hdf_file :=
  fold_left (fun s kv => hdf_put (fst kv) (snd kv) s) writes file.

(** The [scalars] dict after the loop over [items], from [scalars] before
    it: each item that is a scalar once its unit is gone, under its
    name. *)
Definition buffered (items : list (string * element))
    (scalars : gmap string scalar) : gmap string scalar :=
  fold_left
    (fun s kv =>
       match cgs (snd kv) with
       | PScalar x => <[fst kv := x]> s
       | _ => s
       end)
    items scalars.


End HdfNotions.

(** ** Abundances *)

(** [tardis.util], of which the module uses one function. *)
Class TardisUtil : Type := {
  (** [element_symbol2atomic_number(symbol)], which raises for what is no
      element symbol *)
  element_symbol2atomic_number : string -> result Z;
}.

Section Abundances.
Context `{FL : FloatLib} `{TU : TardisUtil}.

(** [dict(pairs)] with integer keys: a key given twice holds the value
    given last. *)
Definition dict_of_pairs (pairs : list (Z * pyfloat)) : gmap Z pyfloat :=
  fold_left (fun d kv => <[fst kv := snd kv]> d) pairs ∅.

(** [sorted(d.keys())] *)
Definition sorted_keys (d : gmap Z pyfloat) : list Z :=
  merge_sort Z.le (map fst (map_to_list d)).

(** [pd.Series([d[z] for z in index], index=index)], the rows as (index,
    value) pairs. *)
Definition Series_of_keys (d : gmap Z pyfloat) (index : list Z)
  : list (Z * pyfloat) :=
  omap (fun z => x ← d !! z; Some (z, x)) index.

(** [1e-12], the float: [0x1.19799812dea11p-40]. *)
Definition abundance_tolerance : Q := 0x119799812dea11 # 2 ^ 92.

(** [abs(norm - 1) > 1e-12].  The difference is exact for a sum between
    one half and two, and far above the tolerance elsewhere, where it is
    rounded; the comparison is false of NaN. *)
Definition off_unity (norm : pyfloat) : bool :=
  match norm with
  | Finite s => negb (Qle_bool (Qabs (s - 1)) abundance_tolerance)
  | Inf _ => true
  | NaN => false
  end.

(** The Series of [parse_abundance_dict_to_dataframe] before it is
    normalised (lines 109-113): the atomic number of each symbol, in the
    iteration order of the dict, with the symbol's abundance; the dict of
    them; its keys sorted; the values in that order. *)
Definition abundance_series (abundance_dict : list (string * pyfloat))
  : result (list (Z * pyfloat)) :=
  pairs ← mapM (fun kv => z ← element_symbol2atomic_number (fst kv);
                           mret (z, snd kv)) abundance_dict;
  let atomic_number_dict := dict_of_pairs pairs in
  let atomic_numbers := sorted_keys atomic_number_dict in
  mret (Series_of_keys atomic_number_dict atomic_numbers).

(** [parse_abundance_dict_to_dataframe(abundance_dict)] (lines 108-120),
    the abundances being floats; the warning it logs is left out. *)
Definition parse_abundance_dict_to_dataframe
    (abundance_dict : list (string * pyfloat)) : result (list (Z * pyfloat)) :=
  abundances ← abundance_series abundance_dict;
  let abundance_norm := Series_sum (map snd abundances) in
  if off_unity abundance_norm then
    mret (map (fun zx => (fst zx, float_div (snd zx) abundance_norm)) abundances)
  else
    mret abundances.

End Abundances.

(** ** Regular expressions

    The patterns of the module are read as regular expressions over bytes.
    A text matches an anchored pattern when some way of reading it along
    the pattern exists ([re] backtracks through all of them), so matching
    is membership in the language of the pattern; it is computed with
    derivatives. *)

Module Re.

Inductive regex : Type :=
| Empty
| Eps
| Chr (p : ascii -> bool)
| Seq (r1 r2 : regex)
| Alt (r1 r2 : regex)
| And (r1 r2 : regex)
| Star (r : regex).

(** [r?] and [r+] *)
Definition Opt (r : regex) : regex := Alt Eps r.
Definition Plus (r : regex) : regex := Seq r (Star r).

(** Whatever follows: [.*] under [DOTALL]. *)
Definition Anything : regex := Star (Chr (fun _ => true)).

(** [(?=r1)r2], [r2] being all of the pattern that follows the lookahead:
    the text from here on is read by [r2], and starts with a text [r1]
    reads. *)
Definition Lookahead (r1 r2 : regex) : regex := And (Seq r1 Anything) r2.

(** [$] without [MULTILINE]: the end of the text, or a line feed that ends
    the text. *)
Definition Dollar : regex := Opt (Chr (Ascii.eqb "010"%char)).

Fixpoint nullable (r : regex) : bool :=
  match r with
  | Empty => false
  | Eps => true
  | Chr _ => false
  | Seq r1 r2 => nullable r1 && nullable r2
  | Alt r1 r2 => nullable r1 || nullable r2
  | And r1 r2 => nullable r1 && nullable r2
  | Star _ => true
  end.

(** The texts [s] such that [r] reads [c] followed by [s]. *)
Fixpoint deriv (c : ascii) (r : regex) : regex :=
  match r with
  | Empty | Eps => Empty
  | Chr p => if p c then Eps else Empty
  | Seq r1 r2 =>
      Alt (Seq (deriv c r1) r2) (if nullable r1 then deriv c r2 else Empty)
  | Alt r1 r2 => Alt (deriv c r1) (deriv c r2)
  | And r1 r2 => And (deriv c r1) (deriv c r2)
  | Star r1 => Seq (deriv c r1) (Star r1)
  end.

(** [r.match(s)] for a pattern anchored at both ends. *)
Fixpoint matches (r : regex) (s : string) : bool :=
  match s with
  | EmptyString => nullable r
  | String c s' => matches (deriv c r) s'
  end.

Definition concat_all (ss : list string) : string :=
  fold_right String.append EmptyString ss.

(** The language of a pattern. *)
Fixpoint lang (r : regex) (s : string) : Prop :=
  match r with
  | Empty => False
  | Eps => s = EmptyString
  | Chr p => exists c, s = String c EmptyString /\ p c = true
  | Seq r1 r2 => exists s1 s2, s = (s1 ++ s2)%string /\ lang r1 s1 /\ lang r2 s2
  | Alt r1 r2 => lang r1 s \/ lang r2 s
  | And r1 r2 => lang r1 s /\ lang r2 s
  | Star r1 => exists ss, s = concat_all ss /\ Forall (lang r1) ss
  end.

(** *** Character classes *)

Definition in_range (lo hi : nat) (c : ascii) : bool :=
  Nat.leb lo (nat_of_ascii c) && Nat.leb (nat_of_ascii c) hi.

(** [\d] *)
Definition digit (c : ascii) : bool := in_range 48 57 c.

(** [[a-zA-Z]] *)
Definition alpha (c : ascii) : bool := in_range 97 122 c || in_range 65 90 c.

(** [\w] *)
Definition word (c : ascii) : bool := alpha c || digit c || Ascii.eqb c "_"%char.

(** [\s] *)
Definition space (c : ascii) : bool := PyStr.isspace c.

(** One of the characters of [chars]. *)
Definition one_of (chars : string) (c : ascii) : bool :=
  existsb (Ascii.eqb c) (list_ascii_of_string chars).

(** A letter under [IGNORECASE], given in lower case. *)
Definition letter (lower : ascii) (c : ascii) : bool :=
  Ascii.eqb c lower
  || Ascii.eqb c (ascii_of_nat (nat_of_ascii lower - 32)).

(** A word under [IGNORECASE], given in lower case. *)
Fixpoint literal (lower : string) : regex :=
  match lower with
  | EmptyString => Eps
  | String c rest => Seq (Chr (letter c)) (literal rest)
  end.

(** *** The patterns of the module (lines 16-42) *)

(** [(?P<sign>[-+])?] *)
Definition sign : regex := Opt (Chr (one_of "-+")).

(** The groups [int], [frac] and [exp] of [float_pattern]: digits or
    none, then a point and digits or none, or nothing, then an [E], a sign
    or none and one digit at least, or nothing. *)
Definition number : regex :=
  Seq (Star (Chr digit))
      (Seq (Opt (Seq (Chr (one_of ".")) (Star (Chr digit))))
           (Opt (Seq (Chr (letter "e"))
                     (Seq (Opt (Chr (one_of "-+"))) (Plus (Chr digit)))))).

(** [\d|\.\d], what the lookahead asks for *)
Definition digit_ahead : regex :=
  Alt (Chr digit) (Seq (Chr (one_of ".")) (Chr digit)).

(** [Inf(inity)?] and [NaN] *)
Definition infinity : regex := Seq (literal "inf") (Opt (literal "inity")).
Definition nan : regex := literal "nan".

(** [float_pattern], followed by [rest]: a sign or none, then a number
    that starts with a digit or with a point and a digit, or an infinity,
    or NaN. *)
Definition float_pattern (rest : regex) : regex :=
  Seq sign
      (Alt (Lookahead digit_ahead (Seq number rest))
           (Alt (Seq infinity rest) (Seq nan rest))).

(** [unit_pattern] *)
Definition unit_start (c : ascii) : bool := alpha c || one_of "1(" c.
Definition unit_rest (c : ascii) : bool :=
  word c || space c || one_of "/^*()+-" c.
Definition unit_pattern : regex :=
  Seq (Chr unit_start) (Star (Chr unit_rest)).

(** [float_regex] and [quantity_regex] (lines 40-42) *)
Definition float_regex : regex := float_pattern Dollar.
Definition quantity_regex : regex :=
  float_pattern (Seq (Plus (Chr space)) (Seq unit_pattern Dollar)).

(** The first characters given to [add_implicit_resolver] (lines 94-97):
    a resolver is tried on a scalar that starts with one of them. *)
Definition resolver_first : string := "-+0123456789.nNiI".

Definition starts_with_one_of (chars : string) (s : string) : bool :=
  match s with
  | String c _ => one_of chars c
  | EmptyString => false
  end.

End Re.

(** ** Trees that answer a walk *)

Section Covers.
Context `{US : UnitSystem}.

(** [covers base other]: [other] has what the walk of [base] asks of it,
    a value under every key of a mapping of [base] and something to
    iterate wherever [base] has a list, and so on below, for the pairs the
    walk forms. *)
Fixpoint covers (base other : config) : Prop :=
  match base with
  | Leaf _ => True
  | PyList l =>
      exists zipped,
        iter other = Ok zipped
        /\ (fix pairs (l1 l2 : list config) : Prop :=
              match l1, l2 with
              | val1 :: l1', val2 :: l2' => covers val1 val2 /\ pairs l1' l2'
              | _, _ => True
              end) l zipped
  | PyDict d =>
      (fix keys (items : list (string * config)) : Prop :=
         match items with
         | [] => True
         | (k, base_k) :: items' =>
             (exists other_k, getitem other k = Ok other_k
                              /\ covers base_k other_k)
             /\ keys items'
         end) d
  end.

End Covers.

(** ** A small table of elements, to run the abundance function *)

Module ReferenceElements.

#[export] Instance elements : TardisUtil := {
  element_symbol2atomic_number symbol :=
    match
      OrderedDict.get
        [("H", 1%Z); ("He", 2%Z); ("C", 6%Z); ("O", 8%Z); ("Si", 14%Z);
         ("Fe", 26%Z); ("Ni", 28%Z)] symbol
    with
    | Some z => Ok z
    | None => Raise (KeyError symbol)
    end;
}.

End ReferenceElements.

(** * Properties *)

(** ** Strings *)

Module PyStrFacts.
Import PyStr.

Lemma lstrip_all_space (a s : string) :
  all_space a = true -> lstrip (a ++ s)%string = lstrip s.
Proof.
  induction a as [|c a IH]; simpl; [reflexivity|].
  intros Hc. apply andb_prop in Hc as [Hc Ha].
  rewrite Hc. auto.
Qed.

Lemma lstrip_word (c : ascii) (s : string) :
  isspace c = false -> lstrip (String c s) = String c s.
Proof. intros Hc. simpl. now rewrite Hc. Qed.

Lemma lstrip_no_space (s : string) : no_space s = true -> lstrip s = s.
Proof.
  destruct s as [|c s]; simpl; [reflexivity|].
  intros Hc. apply andb_prop in Hc as [Hc _].
  apply negb_true_iff in Hc. now rewrite Hc.
Qed.

Lemma span_word_no_space (s : string) :
  no_space s = true -> span_word s = (s, EmptyString).
Proof.
  induction s as [|c s IH]; simpl; [reflexivity|].
  intros Hc. apply andb_prop in Hc as [Hc Hs].
  apply negb_true_iff in Hc. rewrite Hc, (IH Hs). reflexivity.
Qed.

(** A word followed by whitespace is cut where the whitespace starts. *)
Lemma span_word_app (w : string) (c : ascii) (r : string) :
  no_space w = true -> isspace c = true ->
  span_word (w ++ String c r)%string = (w, String c r).
Proof.
  intros Hw Hc. induction w as [|d w IH]; simpl.
  - now rewrite Hc.
  - simpl in Hw. apply andb_prop in Hw as [Hd Hw].
    apply negb_true_iff in Hd. rewrite Hd, (IH Hw). reflexivity.
Qed.

Lemma rstrip_all_space (s : string) : all_space s = true -> rstrip s = EmptyString.
Proof.
  induction s as [|c s IH]; simpl; [reflexivity|].
  intros Hc. apply andb_prop in Hc as [Hc Hs].
  now rewrite (IH Hs), Hc.
Qed.

(** A string without whitespace splits into no item when it is empty and
    into itself alone otherwise. *)
Lemma split_no_space (text : string) :
  no_space text = true ->
  split_None_1 text = [] \/ split_None_1 text = [text].
Proof.
  intros Hn. unfold split_None_1.
  rewrite (lstrip_no_space _ Hn).
  destruct text as [|c s]; [now left|right].
  rewrite (span_word_no_space _ Hn). reflexivity.
Qed.

(** Leading whitespace, a word, whitespace, and a rest that starts with a
    character that is no whitespace: the word and the rest. *)
Lemma split_two (lead w sep : string) (c : ascii) (rest : string) :
  all_space lead = true ->
  no_space w = true -> w <> EmptyString ->
  all_space sep = true -> sep <> EmptyString ->
  isspace c = false ->
  split_None_1 (lead ++ w ++ sep ++ String c rest)%string = [w; String c rest].
Proof.
  intros Hlead Hw Hw0 Hsep Hsep0 Hc. unfold split_None_1.
  rewrite (lstrip_all_space _ _ Hlead).
  destruct w as [|d w]; [congruence|].
  destruct sep as [|e sep]; [congruence|].
  pose proof Hw as Hw'. simpl in Hw'. apply andb_prop in Hw' as [Hd _].
  apply negb_true_iff in Hd.
  pose proof Hsep as Hsep'. simpl in Hsep'. apply andb_prop in Hsep' as [He _].
  change (String d w ++ String e sep ++ String c rest)%string
    with (String d (w ++ String e (sep ++ String c rest)))%string.
  rewrite (lstrip_word _ _ Hd).
  change (String d (w ++ String e (sep ++ String c rest)))%string
    with (String d w ++ String e (sep ++ String c rest))%string.
  rewrite (span_word_app _ _ _ Hw He).
  change (String e (sep ++ String c rest))%string
    with (String e sep ++ String c rest)%string.
  rewrite (lstrip_all_space _ _ Hsep), (lstrip_word _ _ Hc).
  reflexivity.
Qed.

Lemma strip_log_lsun (trail : string) :
  all_space trail = true -> strip ("log_lsun" ++ trail) = "log_lsun".
Proof.
  intros Ht. unfold strip.
  change (lstrip ("log_lsun" ++ trail)%string) with ("log_lsun" ++ trail)%string.
  simpl. change (String.append EmptyString trail) with trail.
  rewrite (rstrip_all_space _ Ht). reflexivity.
Qed.

End PyStrFacts.

(** ** The quantity parser *)

Section QuantityParser.
Context `{FL : FloatLib} `{US : UnitSystem}.
Import PyStr PyStrFacts.

(** C3. A number, whitespace and the token [log_lsun] (whitespace around
    them allowed) parse to the Quantity of value
    [10 ** (v + log10(L_sun.cgs.value))] and unit [erg/s], where [v] is
    the float the number reads as and the unit system knows [erg/s]; so
    does ["1 log_lsun"], and ["2.0 erg/s"] parses to the value 2.0 with
    the unit [erg/s]. *)
Theorem quantity_from_str_log_lsun (erg_s : aunit) :
  Unit "erg/s" = Some erg_s ->
  (forall (lead v_str sep trail : string) (v : pyfloat),
      all_space lead = true ->
      no_space v_str = true -> v_str <> EmptyString ->
      all_space sep = true -> sep <> EmptyString ->
      all_space trail = true ->
      float_of_str v_str = Some v ->
      quantity_from_str (lead ++ v_str ++ sep ++ "log_lsun" ++ trail)
      = Ok (mkQuantity
              (float_pow (Finite 10) (float_add v (np_log10 L_sun_cgs)))
              erg_s))
  /\ (float_of_str "1" = Some (Finite 1) ->
      quantity_from_str "1 log_lsun"
      = Ok (mkQuantity
              (float_pow (Finite 10)
                 (float_add (Finite 1) (np_log10 L_sun_cgs)))
              erg_s))
  /\ (float_of_str "2.0" = Some (Finite 2) ->
      quantity_from_str "2.0 erg/s" = Ok (mkQuantity (Finite 2) erg_s)).
Proof.
  intros Hunit.
  assert (Hgen : forall (lead v_str sep trail : string) (v : pyfloat),
      all_space lead = true ->
      no_space v_str = true -> v_str <> EmptyString ->
      all_space sep = true -> sep <> EmptyString ->
      all_space trail = true ->
      float_of_str v_str = Some v ->
      quantity_from_str (lead ++ v_str ++ sep ++ "log_lsun" ++ trail)
      = Ok (mkQuantity
              (float_pow (Finite 10) (float_add v (np_log10 L_sun_cgs)))
              erg_s)).
  { intros lead v_str sep trail v Hlead Hv Hv0 Hsep Hsep0 Htrail Hfloat.
    unfold quantity_from_str.
    change ("log_lsun" ++ trail)%string
      with (String "l" ("og_lsun" ++ trail))%string.
    rewrite (split_two lead v_str sep "l" _ Hlead Hv Hv0 Hsep Hsep0 eq_refl).
    unfold float. rewrite Hfloat. simpl mbind. unfold result_bind.
    change (String "l" ("og_lsun" ++ trail))%string
      with ("log_lsun" ++ trail)%string.
    rewrite (strip_log_lsun _ Htrail). simpl String.eqb.
    unfold Quantity_of. now rewrite Hunit. }
  split; [exact Hgen|split].
  - intros H1.
    exact (Hgen "" "1" " " "" (Finite 1) eq_refl eq_refl
             ltac:(discriminate) eq_refl ltac:(discriminate) eq_refl H1).
  - intros H2. unfold quantity_from_str.
    change (split_None_1 "2.0 erg/s") with ["2.0"; "erg/s"].
    unfold float. rewrite H2.
    change (Quantity_of (Finite 2) "erg/s" = Ok (mkQuantity (Finite 2) erg_s)).
    unfold Quantity_of. now rewrite Hunit.
Qed.

(** C7. A text without whitespace is refused: unpacking what [split]
    returns raises [ValueError], whatever the text reads as. *)
Theorem quantity_from_str_no_separator (text : string) :
  no_space text = true -> quantity_from_str text = Raise ValueError.
Proof.
  intros Hn. unfold quantity_from_str.
  destruct (split_no_space text Hn) as [-> | ->]; reflexivity.
Qed.

End QuantityParser.

(** ** Ordered dictionaries and the loader *)

Module OrderedDictFacts.
Import OrderedDict.

Section Facts.
Context {V : Type}.
Implicit Types (d : list (string * V)) (k : string) (v : V).

Lemma keys_set d k v :
  keys (set d k v)
  = if existsb (String.eqb k) (keys d) then keys d else keys d ++ [k].
Proof.
  unfold keys. induction d as [|[k' v'] d IH]; simpl; [reflexivity|].
  rewrite (String.eqb_sym k k').
  destruct (String.eqb k' k); simpl; [reflexivity|].
  rewrite IH.
  destruct (existsb (String.eqb k) (map fst d)); reflexivity.
Qed.

Lemma keys_fold_set (pairs : list (string * V)) : forall d (seen : list string),
  (forall k, existsb (String.eqb k) seen = existsb (String.eqb k) (keys d)) ->
  keys (fold_left (fun d kv => set d (fst kv) (snd kv)) pairs d)
  = keys d ++ first_occurrences seen (map fst pairs).
Proof.
  induction pairs as [|[k v] pairs IH]; intros d seen Hseen; simpl.
  - now rewrite app_nil_r.
  - rewrite Hseen.
    destruct (existsb (String.eqb k) (keys d)) eqn:Hk.
    + rewrite (IH (set d k v) seen).
      * now rewrite keys_set, Hk.
      * intros k0. now rewrite keys_set, Hk.
    + rewrite (IH (set d k v) (k :: seen)).
      * rewrite keys_set, Hk, <- app_assoc. reflexivity.
      * intros k0. rewrite keys_set, Hk, existsb_app. simpl.
        rewrite Hseen, orb_false_r. apply orb_comm.
Qed.

(** [OrderedDict(pairs)] iterates the keys in the order of their first
    occurrence in [pairs]. *)
Lemma keys_of_pairs (pairs : list (string * V)) :
  keys (of_pairs pairs) = first_occurrences [] (map fst pairs).
Proof.
  unfold of_pairs. now rewrite (keys_fold_set pairs [] []).
Qed.

End Facts.

Lemma first_occurrences_NoDup (l : list string) : forall seen,
  NoDup l ->
  (forall k, In k l -> existsb (String.eqb k) seen = false) ->
  first_occurrences seen l = l.
Proof.
  induction l as [|k l IH]; intros seen Hnd Hseen; simpl; [reflexivity|].
  rewrite (Hseen k (or_introl eq_refl)).
  inversion Hnd as [|? ? Hnotin Hnd']; subst.
  f_equal. apply IH; [assumption|].
  intros k0 Hin. simpl. rewrite (Hseen k0 (or_intror Hin)), orb_false_r.
  apply String.eqb_neq. intros ->.
  apply Hnotin. now apply list_elem_of_In.
Qed.

End OrderedDictFacts.

Lemma mapM_Ok_Forall2 {A B : Type} (f : A -> result B) (l : list A) :
  forall l', mapM f l = Ok l' -> Forall2 (fun x y => f x = Ok y) l l'.
Proof.
  induction l as [|x l IH]; simpl; intros l' Hl.
  - inversion Hl. constructor.
  - destruct (f x) as [y|e] eqn:Hx; simpl in Hl; [|discriminate].
    destruct (mapM f l) as [ys|e]; simpl in Hl; [|discriminate].
    inversion Hl; subst. constructor; auto.
Qed.

Lemma mapM_total {A B : Type} (f : A -> result B) (l : list A) :
  Forall (fun x => exists y, f x = Ok y) l -> exists l', mapM f l = Ok l'.
Proof.
  induction 1 as [|x l [y Hy] _ [ys Hys]]; simpl.
  - now exists [].
  - exists (y :: ys). now rewrite Hy, Hys.
Qed.

Section LoaderFacts.
Context `{FL : FloatLib} `{YL : YamlLib}.
Import OrderedDict OrderedDictFacts YAMLLoader.

Lemma construct_pairs_keys (construct : node -> result config)
    (pairs : list (string * node)) (items : list (string * config)) :
  construct_pairs construct pairs = Ok items ->
  map fst items = map fst pairs.
Proof.
  unfold construct_pairs. intros Hm.
  apply mapM_Ok_Forall2 in Hm.
  induction Hm as [|[k n] [k' v] pairs items Hkv _ IH]; simpl; [reflexivity|].
  f_equal; [|exact IH].
  simpl in Hkv. destruct (construct n); simpl in Hkv; [|discriminate].
  now inversion Hkv.
Qed.

(** C6. A mapping node is loaded as a dictionary whose keys iterate in
    document order (a key written twice standing where it came first);
    the loading succeeds when the values load; a mapping written with the
    keys c, a, b is loaded with the keys in that order. *)
Theorem mapping_constructor_keeps_order (pairs : list (string * node)) :
  (forall tree : config,
      construct_object (MappingNode pairs) = Ok tree ->
      exists d : list (string * config),
        tree = PyDict d
        /\ keys d = first_occurrences [] (map fst pairs)
        /\ (NoDup (map fst pairs) -> keys d = map fst pairs))
  /\ (Forall (fun kv => exists v, construct_object (snd kv) = Ok v) pairs ->
      exists tree, construct_object (MappingNode pairs) = Ok tree)
  /\ (forall (nc na nb : node) (vc va vb : config),
      construct_object nc = Ok vc ->
      construct_object na = Ok va ->
      construct_object nb = Ok vb ->
      construct_object (MappingNode [("c", nc); ("a", na); ("b", nb)])
      = Ok (PyDict [("c", vc); ("a", va); ("b", vb)])).
Proof.
  split; [|split].
  - intros tree Htree.
    change (construct_object (MappingNode pairs))
      with (mapping_constructor construct_object pairs) in Htree.
    unfold mapping_constructor in Htree.
    destruct (construct_pairs construct_object pairs) as [items|e] eqn:Hitems;
      simpl in Htree; [|discriminate].
    inversion Htree; subst tree. exists (of_pairs items).
    apply construct_pairs_keys in Hitems.
    rewrite keys_of_pairs, Hitems.
    split; [reflexivity|split; [reflexivity|]].
    intros Hnd. apply first_occurrences_NoDup; [assumption|reflexivity].
  - intros Hall.
    change (construct_object (MappingNode pairs))
      with (mapping_constructor construct_object pairs).
    unfold mapping_constructor, construct_pairs.
    destruct (mapM_total
                (fun kv => v ← construct_object (snd kv); mret (fst kv, v))
                pairs) as [items Hitems].
    + eapply Forall_impl; [exact Hall|].
      intros [k n] [v Hv]. simpl in *. exists (k, v). now rewrite Hv.
    + rewrite Hitems. eexists. reflexivity.
  - intros nc na nb vc va vb Hc Ha Hb.
    change (construct_object (MappingNode [("c", nc); ("a", na); ("b", nb)]))
      with (mapping_constructor construct_object
              [("c", nc); ("a", na); ("b", nb)]).
    unfold mapping_constructor, construct_pairs. simpl.
    rewrite Hc, Ha, Hb. reflexivity.
Qed.

End LoaderFacts.

(** ** The comparator *)

Section ConfigInduction.
Context `{US : UnitSystem}.
Variable P : config -> Prop.
Hypothesis Hleaf : forall x, P (Leaf x).
Hypothesis Hlist : forall l, Forall P l -> P (PyList l).
Hypothesis Hdict : forall d, Forall (fun kv => P (snd kv)) d -> P (PyDict d).

(** Induction on a tree, with the property known for every item of a list
    and every value of a mapping. *)
Fixpoint config_induction (c : config) : P c :=
  match c with
  | Leaf x => Hleaf x
  | PyList l =>
      Hlist l
        ((fix items (l : list config) : Forall P l :=
            match l with
            | [] => List.Forall_nil P
            | c' :: l' =>
                @List.Forall_cons _ P c' l' (config_induction c') (items l')
            end) l)
  | PyDict d =>
      Hdict d
        ((fix items (d : list (string * config))
            : Forall (fun kv => P (snd kv)) d :=
            match d with
            | [] => List.Forall_nil _
            | (k, c') :: d' =>
                @List.Forall_cons _ (fun kv => P (snd kv)) (k, c') d'
                  (config_induction c') (items d')
            end) d)
  end.

End ConfigInduction.

Section ComparatorFacts.
Context `{FL : FloatLib} `{US : UnitSystem}.
Implicit Types (base other : config) (func : leaf -> config -> result ()).

(** *** The equations of the traversal *)

Lemma traverse_dict_nil other func :
  traverse_configs (PyDict []) other func = Ok ().
Proof. reflexivity. Qed.

Lemma traverse_dict_cons k base_k d other func :
  traverse_configs (PyDict ((k, base_k) :: d)) other func
  = (other_k ← getitem other k;
     traverse_configs base_k other_k func;;
     traverse_configs (PyDict d) other func).
Proof. reflexivity. Qed.

Lemma traverse_list_iter l other zipped func :
  iter other = Ok zipped ->
  traverse_configs (PyList l) other func
  = traverse_configs (PyList l) (PyList zipped) func.
Proof. intros Hit. simpl. now rewrite Hit. Qed.

Lemma traverse_list_raise l other e func :
  iter other = Raise e -> traverse_configs (PyList l) other func = Raise e.
Proof. intros Hit. simpl. now rewrite Hit. Qed.

Lemma traverse_list_nil_l l2 func :
  traverse_configs (PyList []) (PyList l2) func = Ok ().
Proof. reflexivity. Qed.

Lemma traverse_list_nil_r l1 func :
  traverse_configs (PyList l1) (PyList []) func = Ok ().
Proof. destruct l1; reflexivity. Qed.

Lemma traverse_list_cons val1 l1 val2 l2 func :
  traverse_configs (PyList (val1 :: l1)) (PyList (val2 :: l2)) func
  = (traverse_configs val1 val2 func;;
     traverse_configs (PyList l1) (PyList l2) func).
Proof. reflexivity. Qed.

Lemma traverse_leaf x other func :
  traverse_configs (Leaf x) other func = func x other.
Proof. reflexivity. Qed.

#[local] Arguments traverse_configs : simpl never.

Lemma getitem_raises other k e :
  getitem other k = Raise e -> e = TypeError \/ exists k', e = KeyError k'.
Proof.
  destruct other as [x|l|d]; simpl; try (intros [= <-]; now left).
  destruct (OrderedDict.get d k); intros [= <-]. right. now exists k.
Qed.

Lemma iter_raises other e : iter other = Raise e -> e = TypeError.
Proof.
  destruct other as [[]|l|d]; simpl; intros [= <-]; reflexivity.
Qed.

(** *** The leaf comparison as one boolean *)

#[local] Arguments allclose : simpl never.

Lemma assert_equality_leaf (x y : leaf) :
  assert_equality x (Leaf y) = assert (leaf_close x y).
Proof.
  unfold assert_equality, leaf_close, np_allclose.
  destruct x, y; simpl; try reflexivity;
    repeat match goal with
           | |- context [unit_eqb ?a ?b] => destruct (unit_eqb a b); simpl
           | |- context [fits_64_bits ?n] => destruct (fits_64_bits n); simpl
           | |- context [allclose ?a ?b] => destruct (allclose a b); simpl
           | |- context [Z.eqb ?a ?b] => destruct (Z.eqb a b); simpl
           | |- context [String.eqb ?a ?b] => destruct (String.eqb a b); simpl
           end; reflexivity.
Qed.

Lemma assert_equality_container (x : leaf) other :
  (forall y, other <> Leaf y) -> assert_equality x other = Raise AssertionError.
Proof.
  destruct other as [y| |]; [intros Hy; now destruct (Hy y)|reflexivity..].
Qed.

(** The leaf comparison raises nothing but [AssertionError]. *)
Lemma assert_equality_raises (x : leaf) other e :
  assert_equality x other = Raise e -> e = AssertionError.
Proof.
  destruct other as [y|l|d]; try (intros [= <-]; reflexivity).
  rewrite assert_equality_leaf. unfold assert.
  destruct (leaf_close x y); intros [= <-]; reflexivity.
Qed.

(** *** Which exceptions the traversal raises *)

Lemma traverse_raises func :
  (forall x y e, func x y = Raise e -> e = AssertionError) ->
  forall base other e,
    traverse_configs base other func = Raise e ->
    e = AssertionError \/ e = TypeError \/ exists k, e = KeyError k.
Proof.
  intros Hfunc base.
  induction base as [x|l IH|d IH] using config_induction; intros other e.
  - rewrite traverse_leaf. intros Hx. left. eauto.
  - destruct (iter other) as [zipped|e'] eqn:Hit.
    + rewrite (traverse_list_iter _ _ _ _ Hit). clear Hit.
      revert zipped. induction IH as [|val1 l Hval1 _ IHl]; intros zipped.
      * rewrite traverse_list_nil_l. discriminate.
      * destruct zipped as [|val2 zipped]; [rewrite traverse_list_nil_r; discriminate|].
        rewrite traverse_list_cons.
        destruct (traverse_configs val1 val2 func) as [[]|e'] eqn:Hv; simpl.
        -- apply IHl.
        -- intros [= <-]. eauto.
    + rewrite (traverse_list_raise _ _ _ _ Hit). intros [= <-].
      right. left. eapply iter_raises; eauto.
  - induction IH as [|[k base_k] d Hk _ IHd].
    + rewrite traverse_dict_nil. discriminate.
    + rewrite traverse_dict_cons.
      destruct (getitem other k) as [other_k|e'] eqn:Hget; simpl.
      * destruct (traverse_configs base_k other_k func) as [[]|e''] eqn:Hv; simpl.
        -- apply IHd.
        -- intros [= <-]. simpl in Hk. eauto.
      * intros [= <-]. right. eapply getitem_raises; eauto.
Qed.

(** *** The first pair that fails decides *)

Lemma traverse_dict_app (pre d : list (string * config)) other func :
  traverse_configs (PyDict (pre ++ d)) other func
  = (traverse_configs (PyDict pre) other func;;
     traverse_configs (PyDict d) other func).
Proof.
  induction pre as [|[k v] pre IH]; [reflexivity|].
  change (((k, v) :: pre) ++ d) with ((k, v) :: (pre ++ d)).
  rewrite !traverse_dict_cons, IH.
  destruct (getitem other k) as [other_k|]; simpl; [|reflexivity].
  now destruct (traverse_configs v other_k func) as [[]|].
Qed.

Lemma traverse_list_app (pre1 l1 pre2 l2 : list config) func :
  length pre1 = length pre2 ->
  traverse_configs (PyList (pre1 ++ l1)) (PyList (pre2 ++ l2)) func
  = (traverse_configs (PyList pre1) (PyList pre2) func;;
     traverse_configs (PyList l1) (PyList l2) func).
Proof.
  revert pre2.
  induction pre1 as [|v1 pre1 IH]; intros [|v2 pre2] Hlen; try discriminate.
  - reflexivity.
  - change ((v1 :: pre1) ++ l1) with (v1 :: (pre1 ++ l1)).
    change ((v2 :: pre2) ++ l2) with (v2 :: (pre2 ++ l2)).
    rewrite !traverse_list_cons, IH by now inversion Hlen.
    now destruct (traverse_configs v1 v2 func) as [[]|].
Qed.

Lemma traverse_dict_Forall (d : list (string * config)) other func :
  Forall (fun kv => exists other_k,
              getitem other (fst kv) = Ok other_k
              /\ traverse_configs (snd kv) other_k func = Ok ()) d ->
  traverse_configs (PyDict d) other func = Ok ().
Proof.
  induction 1 as [|[k v] d (other_k & Hget & Hv) _ IH].
  - apply traverse_dict_nil.
  - rewrite traverse_dict_cons. simpl in Hget, Hv. rewrite Hget. simpl.
    rewrite Hv. exact IH.
Qed.

Lemma traverse_list_Forall (l1 l2 : list config) func :
  Forall (fun p => traverse_configs (fst p) (snd p) func = Ok ())
         (combine l1 l2) ->
  traverse_configs (PyList l1) (PyList l2) func = Ok ().
Proof.
  revert l2. induction l1 as [|v1 l1 IH]; intros l2 Hall.
  - apply traverse_list_nil_l.
  - destruct l2 as [|v2 l2]; [apply traverse_list_nil_r|].
    simpl in Hall. inversion Hall as [|? ? Hv Hl]; subst. simpl in Hv.
    rewrite traverse_list_cons, Hv. now apply IH.
Qed.

(** *** A successful traversal has compared every pair it reaches *)

Lemma traverse_dict_In d other func :
  traverse_configs (PyDict d) other func = Ok () ->
  forall k base_k other_k,
    In (k, base_k) d -> getitem other k = Ok other_k ->
    traverse_configs base_k other_k func = Ok ().
Proof.
  induction d as [|[k' v'] d IH]; intros Hok k base_k other_k Hin Hget.
  - destruct Hin.
  - rewrite traverse_dict_cons in Hok.
    destruct (getitem other k') as [other_k'|] eqn:Hget'; simpl in Hok;
      [|discriminate].
    destruct (traverse_configs v' other_k' func) as [[]|] eqn:Hv; simpl in Hok;
      [|discriminate].
    destruct Hin as [[= <- <-]|Hin].
    + rewrite Hget in Hget'. now inversion Hget'.
    + eapply IH; eauto.
Qed.

Lemma traverse_list_nth l zipped func :
  traverse_configs (PyList l) (PyList zipped) func = Ok () ->
  forall i val1 val2,
    nth_error l i = Some val1 -> nth_error zipped i = Some val2 ->
    traverse_configs val1 val2 func = Ok ().
Proof.
  revert zipped. induction l as [|v1 l IH]; intros zipped Hok i val1 val2 H1 H2.
  - destruct i; discriminate.
  - destruct zipped as [|v2 zipped]; [destruct i; discriminate|].
    rewrite traverse_list_cons in Hok.
    destruct (traverse_configs v1 v2 func) as [[]|] eqn:Hv; simpl in Hok;
      [|discriminate].
    destruct i as [|i]; simpl in H1, H2.
    + inversion H1; inversion H2; subst. exact Hv.
    + eapply IH; eauto.
Qed.

Lemma traverse_corresponds base other func x y :
  corresponds base other x y ->
  traverse_configs base other func = Ok () ->
  func x y = Ok ().
Proof.
  induction 1 as [x other|d other k base_k other_k x y Hin Hget _ IH
                 |l zipped other i val1 val2 x y Hit H1 H2 _ IH]; intros Hok.
  - exact Hok.
  - apply IH. eapply traverse_dict_In; eauto.
  - apply IH. rewrite (traverse_list_iter _ _ _ _ Hit) in Hok.
    eapply traverse_list_nth; eauto.
Qed.

(** *** Zipping *)

Lemma traverse_list_firstn func (l1 : list config) : forall l2,
  traverse_configs (PyList l1) (PyList l2) func
  = traverse_configs
      (PyList (firstn (Nat.min (length l1) (length l2)) l1))
      (PyList (firstn (Nat.min (length l1) (length l2)) l2)) func.
Proof.
  induction l1 as [|val1 l1 IH]; intros l2.
  - reflexivity.
  - destruct l2 as [|val2 l2].
    + now rewrite traverse_list_nil_r.
    + cbn [length Nat.min firstn]. rewrite !traverse_list_cons.
      now rewrite (IH l2).
Qed.

Lemma traverse_list_app_l func (l1 l2 extra : list config) :
  length l1 = length l2 ->
  traverse_configs (PyList (l1 ++ extra)) (PyList l2) func
  = traverse_configs (PyList l1) (PyList l2) func.
Proof.
  revert l2. induction l1 as [|val1 l1 IH]; intros [|val2 l2] Hlen;
    try discriminate.
  - simpl. now rewrite traverse_list_nil_r.
  - change ((val1 :: l1) ++ extra) with (val1 :: (l1 ++ extra)).
    rewrite !traverse_list_cons, IH; [reflexivity|]. now inversion Hlen.
Qed.

Lemma traverse_list_app_r func (l1 l2 extra : list config) :
  length l1 = length l2 ->
  traverse_configs (PyList l1) (PyList (l2 ++ extra)) func
  = traverse_configs (PyList l1) (PyList l2) func.
Proof.
  revert l2. induction l1 as [|val1 l1 IH]; intros [|val2 l2] Hlen;
    try discriminate.
  - reflexivity.
  - change ((val2 :: l2) ++ extra) with (val2 :: (l2 ++ extra)).
    rewrite !traverse_list_cons, IH; [reflexivity|]. now inversion Hlen.
Qed.

End ComparatorFacts.

Section ComparatorTheorems.
Context `{FL : FloatLib} `{US : UnitSystem}.
#[local] Arguments allclose : simpl never.
#[local] Arguments traverse_configs : simpl never.

Lemma check_equality_leaves (x y : leaf) :
  check_equality (Leaf x) (Leaf y) = Ok (leaf_close x y).
Proof.
  unfold check_equality. rewrite traverse_leaf, assert_equality_leaf.
  now destruct (leaf_close x y).
Qed.

Lemma check_equality_traverse_Ok (a b : config) :
  traverse_configs a b assert_equality = Ok () -> check_equality a b = Ok true.
Proof. unfold check_equality. now intros ->. Qed.

Lemma check_equality_true (a b : config) :
  check_equality a b = Ok true -> traverse_configs a b assert_equality = Ok ().
Proof.
  unfold check_equality.
  destruct (traverse_configs a b assert_equality) as [[]|[]]; try discriminate.
  reflexivity.
Qed.

(** A pair that does not compare [True] makes the walk raise. *)
Lemma check_equality_not_true (a b : config) :
  check_equality a b <> Ok true ->
  exists e, traverse_configs a b assert_equality = Raise e.
Proof.
  intros Hnot.
  destruct (traverse_configs a b assert_equality) as [[]|e] eqn:Ht; [|eauto].
  destruct Hnot. now apply check_equality_traverse_Ok.
Qed.

(** What the walk raises after pairs that passed is what the whole
    comparison gives. *)
Lemma check_equality_after (a b a' b' : config) (e : exn) :
  traverse_configs a' b' assert_equality = Raise e ->
  traverse_configs a b assert_equality
  = (Ok ();; traverse_configs a' b' assert_equality) ->
  check_equality a b = check_equality a' b'.
Proof. unfold check_equality. intros He ->. reflexivity. Qed.

(** C1, as the code has it. [check_equality] never raises
    [AssertionError]: every failed assertion of the leaf comparison (the
    types differ, the units differ, the values are not close) gives
    [False], and comparing a leaf always gives a boolean.  The lookups of
    the traversal are not guarded, and the walk stops at the first pair
    that does not compare [True]: there the result is decided.  After the
    pairs before it have compared [True], a key of [a] that [b] lacks
    raises [KeyError], a [b] that is no mapping where [a] is one raises
    [TypeError], as does a [b] that cannot be iterated where [a] is a
    list, and a pair of values that gives [False] or raises makes the
    whole comparison do the same, at any depth.  [KeyError] and
    [TypeError] are all that reaches the caller. *)
Theorem check_equality_absorbs_assertions (a b : config) :
  check_equality a b <> Raise AssertionError
  /\ (traverse_configs a b assert_equality = Raise AssertionError ->
      check_equality a b = Ok false)
  /\ (forall e, check_equality a b = Raise e ->
        e = TypeError \/ exists k, e = KeyError k)
  /\ (forall x, a = Leaf x -> exists r, check_equality a b = Ok r)
  /\ (forall pre k base_k post,
        a = PyDict (pre ++ (k, base_k) :: post) ->
        Forall (fun kv => exists other_k,
                    getitem b (fst kv) = Ok other_k
                    /\ check_equality (snd kv) other_k = Ok true) pre ->
        (forall d, b = PyDict d -> OrderedDict.get d k = None ->
                   check_equality a b = Raise (KeyError k))
        /\ ((forall d, b <> PyDict d) -> check_equality a b = Raise TypeError)
        /\ (forall other_k,
              getitem b k = Ok other_k ->
              check_equality base_k other_k <> Ok true ->
              check_equality a b = check_equality base_k other_k))
  /\ (forall l, a = PyList l ->
        (forall x, b = Leaf x -> (forall s, x <> LStr s) ->
                   check_equality a b = Raise TypeError)
        /\ (forall pre val1 post zpre val2 zpost,
              l = pre ++ val1 :: post ->
              iter b = Ok (zpre ++ val2 :: zpost) ->
              length pre = length zpre ->
              Forall (fun p => check_equality (fst p) (snd p) = Ok true)
                     (combine pre zpre) ->
              check_equality val1 val2 <> Ok true ->
              check_equality a b = check_equality val1 val2)).
Proof.
  split; [|split; [|split; [|split; [|split]]]].
  - unfold check_equality.
    now destruct (traverse_configs a b assert_equality) as [[]|[]].
  - unfold check_equality. now intros ->.
  - unfold check_equality. intros e.
    destruct (traverse_configs a b assert_equality) as [[]|e'] eqn:Ht;
      [discriminate|].
    destruct (traverse_raises assert_equality assert_equality_raises a b e' Ht)
      as [->|[->|[k ->]]]; [discriminate| |]; intros [= <-]; eauto.
  - unfold check_equality. intros x ->. rewrite traverse_leaf.
    destruct (assert_equality x b) as [[]|e] eqn:Hx; [eauto|].
    rewrite (assert_equality_raises x b e Hx). eauto.
  - intros pre k base_k post -> Hpre.
    assert (Hwalk : traverse_configs (PyDict pre) b assert_equality = Ok ()).
    { apply traverse_dict_Forall. eapply Forall_impl; [exact Hpre|].
      intros kv (other_k & Hget & Hv). exists other_k.
      split; [assumption|now apply check_equality_true]. }
    assert (Hrest : traverse_configs (PyDict (pre ++ (k, base_k) :: post)) b
                      assert_equality
                    = (other_k ← getitem b k;
                       traverse_configs base_k other_k assert_equality;;
                       traverse_configs (PyDict post) b assert_equality)).
    { now rewrite traverse_dict_app, Hwalk, traverse_dict_cons. }
    split; [|split].
    + intros d -> Hget. unfold check_equality. rewrite Hrest. simpl.
      now rewrite Hget.
    + intros Hb. unfold check_equality. rewrite Hrest.
      destruct b as [x|l|d]; [reflexivity..|]. now destruct (Hb d).
    + intros other_k Hget Hnot.
      destruct (check_equality_not_true _ _ Hnot) as [e He].
      apply (check_equality_after _ _ _ _ e He).
      rewrite Hrest, Hget. simpl. now rewrite He.
  - intros l ->. split.
    + intros x -> Hx. unfold check_equality.
      rewrite (traverse_list_raise l (Leaf x) TypeError); [reflexivity|].
      destruct x; try reflexivity. now destruct (Hx s).
    + intros pre val1 post zpre val2 zpost -> Hit Hlen Hpre Hnot.
      destruct (check_equality_not_true _ _ Hnot) as [e He].
      apply (check_equality_after _ _ _ _ e He).
      rewrite (traverse_list_iter _ _ _ _ Hit).
      rewrite (traverse_list_app _ _ _ _ _ Hlen).
      rewrite (traverse_list_Forall pre zpre).
      * rewrite traverse_list_cons, He. reflexivity.
      * eapply Forall_impl; [exact Hpre|].
        intros p Hp. now apply check_equality_true.
Qed.

(** *** Closeness of numbers *)

Lemma tiny_pos : (0 < tiny)%Q.
Proof. reflexivity. Qed.

Lemma underflow_nonneg (y : Q) : (0 <= underflow y)%Q.
Proof.
  unfold underflow. pose proof tiny_pos.
  destruct (Qle_bool (4 * tiny) (Qabs y)); lra.
Qed.

(** Below the tolerance the two floats are close. *)
Lemma allclose_below (x y : Q) :
  (Qabs (x - y) <= rtol_below * Qabs y)%Q ->
  allclose (Finite x) (Finite y) = true.
Proof.
  intros Hle. unfold allclose. apply Qle_bool_iff in Hle. now rewrite Hle.
Qed.

(** Above it they are not. *)
Lemma allclose_above (x y : Q) :
  (rtol_above * Qabs y + underflow y < Qabs (x - y))%Q ->
  allclose (Finite x) (Finite y) = false.
Proof.
  intros Hlt. unfold allclose.
  pose proof (underflow_nonneg y) as Hu. pose proof (Qabs_nonneg y) as Hy.
  destruct (Qle_bool (Qabs (x - y)) (rtol_below * Qabs y)) eqn:H1.
  - apply Qle_bool_iff in H1. unfold rtol_below, rtol_above in *. lra.
  - destruct (Qle_bool (Qabs (x - y)) (rtol_above * Qabs y + underflow y))
      eqn:H2; [|reflexivity].
    apply Qle_bool_iff in H2. lra.
Qed.

Lemma allclose_refl (a : pyfloat) :
  float_is_nan a = false -> allclose a a = true.
Proof.
  destruct a as [x|s|]; simpl; intros Hnan; try discriminate.
  - apply allclose_below.
    rewrite (Qabs_wd (x - x) 0) by ring.
    apply Qmult_le_0_compat; [discriminate|apply Qabs_nonneg].
  - unfold allclose. now destruct s.
Qed.

Lemma leaf_close_floats (x y : Q) :
  leaf_close (LFloat (Finite x)) (LFloat (Finite y))
  = allclose (Finite x) (Finite y).
Proof. reflexivity. Qed.



(** *** Reflexivity *)

Lemma leaf_close_refl (x : leaf) :
  (forall u, unit_eqb u u = true) ->
  leaf_nan_free x = true -> leaf_close x x = true.
Proof.
  intros Hrefl Hnan. unfold leaf_close.
  destruct x as [|b|n|a|s|q]; simpl in *.
  - reflexivity.
  - apply allclose_refl. reflexivity.
  - destruct (fits_64_bits n); [now apply allclose_refl|apply Z.eqb_refl].
  - apply allclose_refl. now apply negb_true_iff.
  - apply String.eqb_refl.
  - rewrite Hrefl. apply allclose_refl. now apply negb_true_iff.
Qed.

Lemma existsb_key {V : Type} (d : list (string * V)) (k : string) (v : V) :
  In (k, v) d -> existsb (String.eqb k) (map fst d) = true.
Proof.
  intros Hin. apply existsb_exists. exists k. split; [|apply String.eqb_refl].
  change k with (fst (k, v)). now apply in_map.
Qed.

Lemma get_distinct {V : Type} (d : list (string * V)) :
  distinct (map fst d) = true ->
  forall k v, In (k, v) d -> OrderedDict.get d k = Some v.
Proof.
  induction d as [|[k' v'] d IH]; simpl; intros Hd k v Hin; [destruct Hin|].
  apply andb_prop in Hd as [Hk' Hd]. apply negb_true_iff in Hk'.
  destruct Hin as [[= <- <-]|Hin].
  - now rewrite String.eqb_refl.
  - destruct (String.eqb k' k) eqn:Hkk.
    + apply String.eqb_eq in Hkk. subst k'.
      rewrite (existsb_key d k v Hin) in Hk'. discriminate.
    + now apply IH.
Qed.

Lemma traverse_dict_self func (d0 : list (string * config)) : forall d,
  (forall k v, In (k, v) d -> OrderedDict.get d0 k = Some v) ->
  Forall (fun kv => traverse_configs (snd kv) (snd kv) func = Ok ()) d ->
  traverse_configs (PyDict d) (PyDict d0) func = Ok ().
Proof.
  induction d as [|[k v] d IH]; intros Hget Hall.
  - apply traverse_dict_nil.
  - rewrite traverse_dict_cons. simpl getitem.
    rewrite (Hget k v (or_introl eq_refl)). simpl.
    inversion Hall as [|? ? Hv Hall']; subst. simpl in Hv. rewrite Hv. simpl.
    apply IH; [|assumption]. intros k0 v0 Hin. apply Hget. now right.
Qed.

Lemma traverse_list_self func (l : list config) :
  Forall (fun c => traverse_configs c c func = Ok ()) l ->
  traverse_configs (PyList l) (PyList l) func = Ok ().
Proof.
  induction 1 as [|c l Hc _ IH].
  - apply traverse_list_nil_l.
  - rewrite traverse_list_cons, Hc. exact IH.
Qed.

Lemma traverse_self (X : config) :
  (forall u, unit_eqb u u = true) ->
  nan_free X = true -> unique_keys X = true ->
  traverse_configs X X assert_equality = Ok ().
Proof.
  intros Hrefl.
  induction X as [x|l IH|d IH] using config_induction; intros Hnan Huniq.
  - rewrite traverse_leaf, assert_equality_leaf.
    simpl in Hnan. now rewrite (leaf_close_refl x Hrefl Hnan).
  - apply traverse_list_self.
    simpl in Hnan, Huniq.
    rewrite forallb_forall in Hnan. rewrite forallb_forall in Huniq.
    rewrite List.Forall_forall in IH. apply List.Forall_forall.
    intros c Hc. auto.
  - simpl in Hnan, Huniq. apply andb_prop in Huniq as [Hkeys Huniq].
    rewrite forallb_forall in Hnan. rewrite forallb_forall in Huniq.
    rewrite List.Forall_forall in IH.
    apply traverse_dict_self.
    + now apply get_distinct.
    + apply List.Forall_forall. intros kv Hkv. auto.
Qed.

(** C5, as the code has it. A tree compares equal to itself when none of
    its floats and Quantities is NaN ([np.allclose] finds NaN close to
    nothing); the keys of each mapping are unique, as in any Python dict,
    and a unit equals itself. *)
Theorem check_equality_reflexive (X : config) :
  (forall u, unit_eqb u u = true) ->
  nan_free X = true -> unique_keys X = true ->
  check_equality X X = Ok true.
Proof.
  intros Hrefl Hnan Huniq.
  apply check_equality_traverse_Ok. now apply traverse_self.
Qed.

(** *** Units *)

(** C8. Two Quantities whose units are not equal never compare equal,
    whatever their values: as leaves, as the values of a key, as items of
    a list the comparison returns [False], and no comparison of two trees
    that reaches them as corresponding leaves returns [True]. *)
Theorem unit_mismatch_not_equal (q1 q2 : Quantity) :
  unit_eqb (Quantity_unit q1) (Quantity_unit q2) = false ->
  check_equality (Leaf (LQuantity q1)) (Leaf (LQuantity q2)) = Ok false
  /\ (forall k, check_equality (PyDict [(k, Leaf (LQuantity q1))])
                               (PyDict [(k, Leaf (LQuantity q2))]) = Ok false)
  /\ check_equality (PyList [Leaf (LQuantity q1)]) (PyList [Leaf (LQuantity q2)])
     = Ok false
  /\ (forall a b, corresponds a b (LQuantity q1) (Leaf (LQuantity q2)) ->
                  check_equality a b <> Ok true).
Proof.
  intros Hunits.
  assert (Hleaf : assert_equality (LQuantity q1) (Leaf (LQuantity q2))
                  = Raise AssertionError).
  { rewrite assert_equality_leaf. unfold leaf_close. simpl.
    now rewrite Hunits. }
  repeat split.
  - unfold check_equality. now rewrite traverse_leaf, Hleaf.
  - intros k. unfold check_equality.
    rewrite traverse_dict_cons. simpl getitem. rewrite String.eqb_refl.
    simpl. now rewrite traverse_leaf, Hleaf.
  - unfold check_equality.
    now rewrite traverse_list_cons, traverse_leaf, Hleaf.
  - intros a b Hcorr Htrue. apply check_equality_true in Htrue.
    pose proof (traverse_corresponds _ _ _ _ _ Hcorr Htrue) as Hok.
    rewrite Hleaf in Hok. discriminate.
Qed.

End ComparatorTheorems.

(** ** The HDF writer *)

Section HdfFacts.
Context `{US : UnitSystem} `{PL : PandasLib} `{HL : !HdfLib}.

Lemma isscalar_item_write (value : element) :
  isscalar value = true <-> item_write value = None.
Proof.
  unfold isscalar, item_write. destruct (cgs value); split; congruence.
Qed.

(** A scalar item is buffered and leaves the file alone; any other item
    leaves the buffer alone. *)
Lemma to_hdf_item_scalar path scalars key value f :
  isscalar value = true ->
  exists x, cgs value = PScalar x
            /\ to_hdf_item path scalars key value f = (f, Ok (<[key := x]> scalars)).
Proof.
  unfold isscalar, to_hdf_item. destruct (cgs value) as [x|a|o]; try discriminate.
  intros _. now exists x.
Qed.

Lemma to_hdf_item_not_scalar path scalars key value f f' scalars' :
  isscalar value = false ->
  to_hdf_item path scalars key value f = (f', Ok scalars') -> scalars' = scalars.
Proof.
  unfold isscalar, to_hdf_item, io_bind, io_ret.
  destruct (cgs value) as [x|a|o]; try discriminate; intros _.
  - match goal with
    | |- context [match ?m f with _ => _ end] => destruct (m f) as [f1 [[]|e]]
    end; now intros [= _ <-].
  - simpl. now intros [= _ <-].
Qed.

(** An item that is no scalar is stored under its key with one write, or
    raises before anything is written. *)
Lemma to_hdf_item_stores path scalars key value obj f :
  item_write value = Some (Ok obj) ->
  to_hdf_item path scalars key value f
  = (mkHdf (hdf_put (os_path_join path key) obj (contents f))
           (trace f ++ [Put (os_path_join path key)]),
     Ok scalars).
Proof.
  unfold to_hdf_item, item_write.
  destruct (cgs value) as [x|a|o]; [discriminate| |].
  - intros [= Hw].
    unfold io_bind, io_except_NotImplementedError, series_to_hdf, frame_to_hdf.
    destruct (Nat.eqb (ndim a) 1); simpl in Hw.
    + destruct (series_storable a); simpl in Hw.
      * now inversion Hw.
      * now rewrite Hw.
    + now rewrite Hw.
  - now intros [= <-].
Qed.

Lemma to_hdf_item_raises path scalars key value e f :
  item_write value = Some (Raise e) ->
  to_hdf_item path scalars key value f = (f, Raise e).
Proof.
  unfold to_hdf_item, item_write.
  destruct (cgs value) as [x|a|o]; [discriminate| |discriminate].
  intros [= Hw].
  unfold io_bind, io_except_NotImplementedError, series_to_hdf, frame_to_hdf.
  destruct (Nat.eqb (ndim a) 1); simpl in Hw.
  - destruct (series_storable a); simpl in Hw; [discriminate|].
    now rewrite Hw.
  - now rewrite Hw.
Qed.

Lemma hdf_puts_cons key obj (writes : list (string * pdobj)) file :
  hdf_puts ((key, obj) :: writes) file = hdf_puts writes (hdf_put key obj file).
Proof. reflexivity. Qed.

Lemma hdf_puts_app (writes1 writes2 : list (string * pdobj)) file :
  hdf_puts (writes1 ++ writes2) file = hdf_puts writes2 (hdf_puts writes1 file).
Proof. apply fold_left_app. Qed.

Lemma item_writes_cons path key value (items : list (string * element)) :
  item_writes path ((key, value) :: items)
  = match item_write value with
    | Some (Ok obj) => (os_path_join path key, obj) :: item_writes path items
    | _ => item_writes path items
    end.
Proof. reflexivity. Qed.

Lemma item_writes_app path (items1 items2 : list (string * element)) :
  item_writes path (items1 ++ items2)
  = item_writes path items1 ++ item_writes path items2.
Proof.
  induction items1 as [|[key value] items1 IH]; [reflexivity|].
  change (((key, value) :: items1) ++ items2)
    with ((key, value) :: (items1 ++ items2)).
  rewrite !item_writes_cons, IH. now destruct (item_write value) as [[]|].
Qed.

Lemma item_writes_In path (items : list (string * element)) key' obj :
  In (key', obj) (item_writes path items) ->
  exists key value,
    In (key, value) items /\ key' = os_path_join path key
    /\ item_write value = Some (Ok obj).
Proof.
  induction items as [|[key value] items IH]; [intros []|].
  rewrite item_writes_cons.
  destruct (item_write value) as [[obj0|e]|] eqn:Hw.
  - intros [[= <- <-]|Hin].
    + exists key, value. split; [now left|auto].
    + destruct (IH Hin) as (k & v & Hkv & Hk & Hv).
      exists k, v. split; [now right|auto].
  - intros Hin. destruct (IH Hin) as (k & v & Hkv & Hk & Hv).
    exists k, v. split; [now right|auto].
  - intros Hin. destruct (IH Hin) as (k & v & Hkv & Hk & Hv).
    exists k, v. split; [now right|auto].
Qed.

(** When every item is stored, there is one write for each, in order. *)
Lemma item_writes_keys path (items : list (string * element)) :
  Forall (fun kv => exists obj, item_write (snd kv) = Some (Ok obj)) items ->
  map fst (item_writes path items)
  = map (fun kv => os_path_join path (fst kv)) items.
Proof.
  induction 1 as [|[key value] items [obj Hw] _ IH]; [reflexivity|].
  rewrite item_writes_cons. simpl in Hw. rewrite Hw. simpl. now rewrite IH.
Qed.

(** What the loop does: it goes through the items until one raises; the
    file has then received the writes of the items before that one, in
    order, and nothing else. *)
Lemma to_hdf_loop_run path (items : list (string * element)) :
  forall scalars f f' r,
    to_hdf_loop path items scalars f = (f', r) ->
    exists done rest,
      items = done ++ rest
      /\ contents f' = hdf_puts (item_writes path done) (contents f)
      /\ trace f'
         = trace f ++ map (fun w => Put (fst w)) (item_writes path done)
      /\ Forall (fun kv => forall e, item_write (snd kv) <> Some (Raise e)) done
      /\ match r with
         | Ok _ => rest = []
         | Raise e =>
             exists key value rest',
               rest = (key, value) :: rest'
               /\ item_write value = Some (Raise e)
         end.
Proof.
  induction items as [|[key value] items IH]; intros scalars f f' r.
  - intros [= <- <-]. exists [], []. simpl. rewrite app_nil_r.
    repeat split; constructor.
  - cbn [to_hdf_loop]. unfold io_bind.
    destruct (item_write value) as [[obj|e]|] eqn:Hw.
    + rewrite (to_hdf_item_stores _ _ _ _ _ _ Hw). intros Hloop.
      destruct (IH _ _ _ _ Hloop) as (done & rest & -> & Hc & Ht & Hd & Hr).
      exists ((key, value) :: done), rest.
      rewrite item_writes_cons, Hw, hdf_puts_cons.
      split; [reflexivity|]. split; [exact Hc|].
      split; [|split; [|exact Hr]].
      * rewrite Ht. simpl. now rewrite <- app_assoc.
      * constructor; [|exact Hd]. simpl. rewrite Hw. congruence.
    + rewrite (to_hdf_item_raises _ _ _ _ _ _ Hw). intros [= <- <-].
      exists [], ((key, value) :: items). simpl. rewrite app_nil_r.
      repeat split; [constructor|]. eauto.
    + destruct (to_hdf_item_scalar path scalars key value f
                  (proj2 (isscalar_item_write value) Hw)) as [x [_ ->]].
      intros Hloop.
      destruct (IH _ _ _ _ Hloop) as (done & rest & -> & Hc & Ht & Hd & Hr).
      exists ((key, value) :: done), rest.
      rewrite item_writes_cons, Hw.
      repeat split; try assumption.
      constructor; [|exact Hd]. simpl. rewrite Hw. congruence.
Qed.

(** What every write of an item keeps, the writes of a list keep. *)
Lemma hdf_puts_keeps (P : hdf_file -> Prop) (writes : list (string * pdobj)) :
  (forall key obj file, In (key, obj) writes -> P file -> P (hdf_put key obj file)) ->
  forall file, P file -> P (hdf_puts writes file).
Proof.
  induction writes as [|[key obj] writes IH]; intros Hput file Hfile;
    [exact Hfile|].
  rewrite hdf_puts_cons. apply IH.
  - intros k o s Hin. apply Hput. now right.
  - apply Hput; [now left|exact Hfile].
Qed.

Lemma to_hdf_loop_keeps (P : hdf_file -> Prop) path
    (items : list (string * element)) scalars f f' r :
  (forall key value obj file,
      In (key, value) items -> P file ->
      P (hdf_put (os_path_join path key) obj file)) ->
  to_hdf_loop path items scalars f = (f', r) ->
  P (contents f) -> P (contents f').
Proof.
  intros Hput Hloop Hf.
  destruct (to_hdf_loop_run _ _ _ _ _ _ Hloop)
    as (done & rest & -> & -> & _ & _ & _).
  apply hdf_puts_keeps; [|exact Hf].
  intros key' obj file Hin.
  destruct (item_writes_In _ _ _ _ Hin) as (key & value & Hkv & -> & _).
  apply (Hput key value). apply in_or_app. now left.
Qed.

(** What the loop buffers: the scalar items, added to what the buffer
    held. *)
Lemma to_hdf_loop_scalars path (items : list (string * element)) :
  forall scalars f f' scalars',
    to_hdf_loop path items scalars f = (f', Ok scalars') ->
    forall k, is_Some (scalars' !! k)
              <-> is_Some (scalars !! k)
                  \/ exists value, In (k, value) items /\ isscalar value = true.
Proof.
  induction items as [|[key value] items IH]; intros scalars f f' scalars'; simpl.
  - intros [= _ <-] k. split; [auto|]. now intros [?|[? [[] _]]].
  - unfold io_bind. destruct (isscalar value) eqn:Hsc.
    + destruct (to_hdf_item_scalar path scalars key value f Hsc) as [x [_ ->]].
      intros Hloop k. rewrite (IH _ _ _ _ Hloop k).
      destruct (decide (key = k)) as [->|Hne].
      * rewrite lookup_insert_eq. split; [|eauto].
        intros _. right. exists value. auto.
      * rewrite lookup_insert_ne by assumption. split.
        -- intros [?|[v [Hin Hv]]]; [auto|right; exists v; auto].
        -- intros [?|[v [[[= -> ->]|Hin] Hv]]]; [auto|congruence|eauto].
    + destruct (to_hdf_item path scalars key value f) as [f1 [scalars1|e]] eqn:Hitem;
        [|discriminate].
      rewrite (to_hdf_item_not_scalar _ _ _ _ _ _ _ Hsc Hitem) in *.
      intros Hloop k. rewrite (IH _ _ _ _ Hloop k). split.
      * intros [?|[v [Hin Hv]]]; [auto|right; exists v; auto].
      * intros [?|[v [[[= -> ->]|Hin] Hv]]]; [auto|congruence|eauto].
Qed.

Lemma is_empty_no_key (scalars : gmap string scalar) :
  scalars = ∅ <-> forall k, ~ is_Some (scalars !! k).
Proof.
  split.
  - intros -> k [x Hx]. now rewrite lookup_empty in Hx.
  - intros Hno. apply map_empty. intros k.
    destruct (scalars !! k) eqn:Hk; [|reflexivity].
    exfalso. apply (Hno k). rewrite Hk. eauto.
Qed.

(** What the scalars step does, by whether the store opens and what it
    holds under [path/scalars]. *)
Lemma to_hdf_scalars_run path scalars complevel complib f :
  to_hdf_scalars path scalars complevel complib f
  = if hdf_opens complevel complib then
      if hdf_contains (os_path_join path "scalars") (contents f) then
        match hdf_getitem (os_path_join path "scalars") (contents f) with
        | Ok (Series old) =>
            (mkHdf (hdf_put (os_path_join path "scalars")
                      (Series (old ++ Series_of_dict scalars)) (contents f))
                   (trace f ++ [Open complevel complib;
                                Contains (os_path_join path "scalars");
                                Getitem (os_path_join path "scalars"); Close;
                                Put (os_path_join path "scalars")]),
             Ok ())
        | Ok _ =>
            (mkHdf (contents f)
                   (trace f ++ [Open complevel complib;
                                Contains (os_path_join path "scalars");
                                Getitem (os_path_join path "scalars"); Close]),
             Raise TypeError)
        | Raise e =>
            (mkHdf (contents f)
                   (trace f ++ [Open complevel complib;
                                Contains (os_path_join path "scalars");
                                Getitem (os_path_join path "scalars"); Close]),
             Raise e)
        end
      else
        (mkHdf (hdf_put (os_path_join path "scalars")
                  (Series (Series_of_dict scalars)) (contents f))
               (trace f ++ [Open complevel complib;
                            Contains (os_path_join path "scalars"); Close;
                            Put (os_path_join path "scalars")]),
         Ok ())
    else (f, Raise ValueError).
Proof.
  unfold to_hdf_scalars, io_bind, io_with_store, store_contains, store_getitem,
    obj_to_hdf, log.
  destruct (hdf_opens complevel complib); [|reflexivity].
  simpl.
  destruct (hdf_contains (os_path_join path "scalars") (contents f)); simpl.
  - destruct (hdf_getitem (os_path_join path "scalars") (contents f))
      as [[old|cells|row]|e]; simpl; rewrite <- !app_assoc; reflexivity.
  - rewrite <- !app_assoc. reflexivity.
Qed.

(** A scalar among the elements makes the buffer non-empty. *)
Lemma to_hdf_loop_not_empty path (elements : list (string * element))
    f f1 scalars :
  to_hdf_loop path elements ∅ f = (f1, Ok scalars) ->
  (exists key value, In (key, value) elements /\ isscalar value = true) ->
  scalars ≠ ∅.
Proof.
  intros Hloop (key & value & Hin & Hsc) Hempty.
  apply (proj1 (is_empty_no_key scalars) Hempty key).
  apply (to_hdf_loop_scalars _ _ _ _ _ _ Hloop key). right. eauto.
Qed.

End HdfFacts.

Section HdfTheorems.
Context `{US : UnitSystem} `{PL : PandasLib} `{HL : !HdfLib}.

Lemma to_hdf_loop_no_scalars path (items : list (string * element)) :
  (forall key value, In (key, value) items -> isscalar value = false) ->
  forall scalars f f' scalars',
    to_hdf_loop path items scalars f = (f', Ok scalars') -> scalars' = scalars.
Proof.
  induction items as [|[key value] items IH]; intros Hns scalars f f' scalars';
    simpl.
  - now intros [= _ <-].
  - unfold io_bind.
    destruct (to_hdf_item path scalars key value f) as [f1 [scalars1|e]] eqn:Hitem;
      [|discriminate].
    rewrite (to_hdf_item_not_scalar _ _ _ _ _ _ _
               (Hns key value (or_introl eq_refl)) Hitem) in *.
    apply IH. intros k v Hin. apply (Hns k v). now right.
Qed.

(** C10, as the code has it. When no value of [elements] is a scalar (once
    its unit is gone), [to_hdf] does what its loop over the items does and
    nothing more: the store is never opened, the scalars step neither
    reads nor writes [path/scalars], and the file ends as the writes of
    the items leave it, one write for each item, in order, up to the item
    that raises if one does.  So [path/scalars] holds after the call what
    it held before when no write of an item changes what it holds; an
    item that is itself stored there replaces the record. *)
Theorem to_hdf_without_scalars (path : string)
    (elements : list (string * element)) (complevel : nat) (complib : string)
    (f : hdf) :
  (forall key value, In (key, value) elements -> isscalar value = false) ->
  fst (to_hdf path elements complevel complib f)
  = fst (to_hdf_loop path elements ∅ f)
  /\ (forall e, snd (to_hdf_loop path elements ∅ f) = Raise e <->
                snd (to_hdf path elements complevel complib f) = Raise e)
  /\ (exists done rest,
         elements = done ++ rest
         /\ contents (fst (to_hdf path elements complevel complib f))
            = hdf_puts (item_writes path done) (contents f)
         /\ map fst (item_writes path done)
            = map (fun kv => os_path_join path (fst kv)) done
         /\ trace (fst (to_hdf path elements complevel complib f))
            = trace f ++ map (fun kv => Put (os_path_join path (fst kv))) done
         /\ (snd (to_hdf path elements complevel complib f) = Ok () ->
             rest = []))
  /\ ((forall key value obj file,
         In (key, value) elements ->
         hdf_getitem (os_path_join path "scalars")
           (hdf_put (os_path_join path key) obj file)
         = hdf_getitem (os_path_join path "scalars") file) ->
      hdf_getitem (os_path_join path "scalars")
        (contents (fst (to_hdf path elements complevel complib f)))
      = hdf_getitem (os_path_join path "scalars") (contents f)).
Proof.
  intros Hns.
  assert (Hrun : to_hdf path elements complevel complib f
                 = (fst (to_hdf_loop path elements ∅ f),
                    match snd (to_hdf_loop path elements ∅ f) with
                    | Ok _ => Ok ()
                    | Raise e => Raise e
                    end)).
  { unfold to_hdf, io_bind.
    destruct (to_hdf_loop path elements ∅ f) as [f1 [scalars|e]] eqn:Hloop;
      [|reflexivity].
    rewrite (to_hdf_loop_no_scalars _ _ Hns _ _ _ _ Hloop).
    rewrite bool_decide_eq_false_2; [reflexivity|]. intros Hne. now apply Hne. }
  rewrite Hrun. cbn [fst snd].
  destruct (to_hdf_loop path elements ∅ f) as [f1 r] eqn:Hloop. cbn [fst snd].
  split; [reflexivity|]. split; [|split].
  - intros e. destruct r; split; congruence.
  - destruct (to_hdf_loop_run _ _ _ _ _ _ Hloop)
      as (done & rest & Hel & Hc & Ht & Hd & Hr).
    assert (Hkeys : map fst (item_writes path done)
                    = map (fun kv => os_path_join path (fst kv)) done).
    { apply item_writes_keys. rewrite List.Forall_forall in Hd.
      apply List.Forall_forall. intros [key value] Hin.
      specialize (Hd _ Hin). simpl in Hd. simpl.
      assert (Hv : isscalar value = false).
      { apply (Hns key). rewrite Hel. apply in_or_app. now left. }
      destruct (item_write value) as [[obj|e]|] eqn:Hw.
      - eauto.
      - now destruct (Hd e).
      - apply isscalar_item_write in Hw. congruence. }
    exists done, rest. split; [exact Hel|]. split; [exact Hc|].
    split; [exact Hkeys|]. split.
    + rewrite Ht. f_equal.
      rewrite <- (map_map fst Put), Hkeys, map_map. reflexivity.
    + destruct r as [scalars|e]; [intros _; exact Hr|discriminate].
  - intros Hput.
    apply (to_hdf_loop_keeps
             (fun file => hdf_getitem (os_path_join path "scalars") file
                          = hdf_getitem (os_path_join path "scalars") (contents f))
             _ _ _ _ _ _) with (3 := eq_refl) (2 := Hloop).
    intros key value obj file Hin Hfile. rewrite <- Hfile.
    exact (Hput key value obj file Hin).
Qed.

(** C2. When the loop over the items has gone through, at least one item
    was a scalar, the store opens and holds a Series under [path/scalars],
    [to_hdf] returns, and the last thing it does is to write under
    [path/scalars] that Series followed by the Series of the buffered
    scalars, every row of both kept; nothing else is written after the
    loop.  Reading [path/scalars] then gives the new record, not the old
    one, a write being read back as it was written. *)
Theorem to_hdf_appends_scalars (path : string)
    (elements : list (string * element)) (complevel : nat) (complib : string)
    (f f1 : hdf) (scalars : gmap string scalar) (old : list (label * scalar)) :
  to_hdf_loop path elements ∅ f = (f1, Ok scalars) ->
  (exists key value, In (key, value) elements /\ isscalar value = true) ->
  hdf_opens complevel complib = true ->
  hdf_contains (os_path_join path "scalars") (contents f1) = true ->
  hdf_getitem (os_path_join path "scalars") (contents f1) = Ok (Series old) ->
  exists f2,
    to_hdf path elements complevel complib f = (f2, Ok ())
    /\ contents f2
       = hdf_put (os_path_join path "scalars")
           (Series (old ++ Series_of_dict scalars)) (contents f1)
    /\ trace f2
       = trace f1 ++ [Open complevel complib;
                      Contains (os_path_join path "scalars");
                      Getitem (os_path_join path "scalars"); Close;
                      Put (os_path_join path "scalars")]
    /\ length (old ++ Series_of_dict scalars)
       = length old + length (Series_of_dict scalars)
    /\ ((forall obj file,
           hdf_getitem (os_path_join path "scalars")
             (hdf_put (os_path_join path "scalars") obj file) = Ok obj) ->
        hdf_getitem (os_path_join path "scalars") (contents f2)
        = Ok (Series (old ++ Series_of_dict scalars))).
Proof.
  intros Hloop Hscalar Hopens Hfound Hold.
  pose proof (to_hdf_loop_not_empty _ _ _ _ _ Hloop Hscalar) as Hne.
  unfold to_hdf, io_bind. rewrite Hloop.
  rewrite bool_decide_eq_true_2 by assumption.
  rewrite to_hdf_scalars_run, Hopens, Hfound, Hold.
  eexists. split; [reflexivity|]. cbn [contents trace].
  split; [reflexivity|]. split; [reflexivity|].
  split; [apply length_app|].
  intros Hread. apply Hread.
Qed.

End HdfTheorems.

(** ** More on the comparator *)

Section ComparatorMore.
Context `{FL : FloatLib} `{US : UnitSystem}.
#[local] Arguments allclose : simpl never.
#[local] Arguments traverse_configs : simpl never.

Lemma check_equality_true_iff (a b : config) :
  check_equality a b = Ok true <-> traverse_configs a b assert_equality = Ok ().
Proof.
  split; [apply check_equality_true|apply check_equality_traverse_Ok].
Qed.

(** X1. Comparing a mapping returns [True] exactly when the other value
    answers every key of the mapping and each pair of values compares
    [True]; nothing else of the other value is asked. *)
Theorem check_equality_dict_true (d : list (string * config)) (other : config) :
  check_equality (PyDict d) other = Ok true
  <-> Forall (fun kv => exists other_k,
                  getitem other (fst kv) = Ok other_k
                  /\ check_equality (snd kv) other_k = Ok true) d.
Proof.
  rewrite check_equality_true_iff.
  induction d as [|[k v] d IH].
  - rewrite traverse_dict_nil. split; [constructor|reflexivity].
  - rewrite traverse_dict_cons. split.
    + destruct (getitem other k) as [other_k|] eqn:Hget; simpl; [|discriminate].
      destruct (traverse_configs v other_k assert_equality) as [[]|] eqn:Hv;
        simpl; [|discriminate].
      intros Hd. constructor; [|now apply IH].
      exists other_k. simpl. split; [assumption|].
      now apply check_equality_true_iff.
    + intros Hall. inversion Hall as [|? ? [other_k [Hget Hv]] Hd]; subst.
      simpl in Hget, Hv. rewrite Hget. simpl.
      apply check_equality_true_iff in Hv. rewrite Hv. simpl. now apply IH.
Qed.

Lemma traverse_list_combine (l zipped : list config) :
  traverse_configs (PyList l) (PyList zipped) assert_equality = Ok ()
  <-> Forall (fun p => check_equality (fst p) (snd p) = Ok true)
             (combine l zipped).
Proof.
  revert zipped. induction l as [|v1 l IH]; intros zipped.
  - rewrite traverse_list_nil_l. split; [constructor|reflexivity].
  - destruct zipped as [|v2 zipped].
    + rewrite traverse_list_nil_r. split; [constructor|reflexivity].
    + rewrite traverse_list_cons. simpl combine. split.
      * destruct (traverse_configs v1 v2 assert_equality) as [[]|] eqn:Hv;
          simpl; [|discriminate].
        intros Hl. constructor; [now apply check_equality_true_iff|now apply IH].
      * intros Hall. inversion Hall as [|? ? Hv Hl]; subst. simpl in Hv.
        apply check_equality_true_iff in Hv. rewrite Hv. simpl. now apply IH.
Qed.

(** X2. Comparing a list returns [True] exactly when the other value can be
    iterated and every pair of the zip compares [True]. *)
Theorem check_equality_list_true (l : list config) (other : config) :
  check_equality (PyList l) other = Ok true
  <-> exists zipped,
        iter other = Ok zipped
        /\ Forall (fun p => check_equality (fst p) (snd p) = Ok true)
                  (combine l zipped).
Proof.
  rewrite check_equality_true_iff. split.
  - destruct (iter other) as [zipped|e] eqn:Hit.
    + rewrite (traverse_list_iter _ _ _ _ Hit). intros Hok.
      exists zipped. split; [reflexivity|now apply traverse_list_combine].
    + rewrite (traverse_list_raise _ _ _ _ Hit). discriminate.
  - intros [zipped [Hit Hall]].
    rewrite (traverse_list_iter _ _ _ _ Hit). now apply traverse_list_combine.
Qed.

(** X3. When the comparison returns [True], every leaf of the first tree
    that the walk reaches stands against a leaf of the same type, with an
    equal unit, and with a close value (an equal one for strings and
    [None]); two finite floats are then no further apart than the
    relative tolerance allows. *)
Theorem check_equality_true_leaves (a b : config) (x : leaf) (y : config) :
  check_equality a b = Ok true ->
  corresponds a b x y ->
  exists y', y = Leaf y' /\ same_type x y' = true /\ unit_equal x y' = true
             /\ leaf_close x y' = true
             /\ (forall p q, x = LFloat (Finite p) -> y' = LFloat (Finite q) ->
                   (Qabs (p - q) <= rtol_above * Qabs q + underflow q)%Q)
             /\ (forall s, x = LStr s -> y' = LStr s).
Proof.
  intros Htrue Hcorr. apply check_equality_true in Htrue.
  pose proof (traverse_corresponds _ _ _ _ _ Hcorr Htrue) as Hok.
  destruct y as [y'| |]; try discriminate.
  rewrite assert_equality_leaf in Hok. unfold assert in Hok.
  destruct (leaf_close x y') eqn:Hclose; [|discriminate].
  exists y'. split; [reflexivity|].
  pose proof Hclose as Hc. unfold leaf_close in Hc.
  apply andb_prop in Hc as [Hc Hval]. apply andb_prop in Hc as [Ht Hu].
  split; [exact Ht|]. split; [exact Hu|]. split; [exact Hclose|]. split.
  - intros p q -> ->. rewrite leaf_close_floats in Hclose.
    destruct (Qlt_le_dec (rtol_above * Qabs q + underflow q) (Qabs (p - q)))
      as [Hlt|Hle]; [|exact Hle].
    rewrite (allclose_above _ _ Hlt) in Hclose. discriminate.
  - intros s ->. destruct y'; try discriminate. simpl in Hval.
    apply String.eqb_eq in Hval. now subst.
Qed.

(** X4. The comparison of a mapping looks at the other mapping under the
    keys of the first only: two mappings that agree on those keys give the
    same result, whatever other keys they hold and in whatever order. *)
Theorem check_equality_other_keys (d d1 d2 : list (string * config)) :
  (forall k, In k (OrderedDict.keys d) ->
             OrderedDict.get d1 k = OrderedDict.get d2 k) ->
  check_equality (PyDict d) (PyDict d1) = check_equality (PyDict d) (PyDict d2).
Proof.
  intros Hagree. unfold check_equality.
  assert (Ht : traverse_configs (PyDict d) (PyDict d1) assert_equality
               = traverse_configs (PyDict d) (PyDict d2) assert_equality).
  { induction d as [|[k v] d IH].
    - now rewrite !traverse_dict_nil.
    - rewrite !traverse_dict_cons. simpl getitem.
      rewrite (Hagree k (or_introl eq_refl)).
      rewrite IH; [reflexivity|]. intros k' Hk'. apply Hagree. now right. }
  now rewrite Ht.
Qed.

(** X5. A leaf compared with a value of another type gives [False], never
    an exception: with a mapping, with a list, and with a leaf of another
    type (an integer against a float, a string against a number). *)
Theorem check_equality_type_mismatch (x : leaf) (other : config) :
  (forall y, other = Leaf y -> same_type x y = false) ->
  check_equality (Leaf x) other = Ok false.
Proof.
  intros Htype. unfold check_equality. rewrite traverse_leaf.
  destruct other as [y|l|d]; [|reflexivity..].
  rewrite assert_equality_leaf. unfold leaf_close.
  now rewrite (Htype y eq_refl).
Qed.

(** X6. Strings, [None] and booleans compare exactly: two strings compare
    [True] when they are the same string and [False] otherwise (through the
    [except] clause, [np.allclose] raising on strings), and so do two
    booleans. *)
Theorem check_equality_exact_leaves (s t : string) (p q : bool) :
  check_equality (Leaf (LStr s)) (Leaf (LStr t)) = Ok (String.eqb s t)
  /\ (check_equality (Leaf (LStr s)) (Leaf (LStr t)) = Ok true <-> s = t)
  /\ check_equality (Leaf LNone) (Leaf LNone) = Ok true
  /\ check_equality (Leaf (LBool p)) (Leaf (LBool q)) = Ok (Bool.eqb p q).
Proof.
  rewrite !check_equality_leaves. repeat split.
  - intros [= Heq]. now apply String.eqb_eq.
  - intros ->. unfold leaf_close. simpl. now rewrite String.eqb_refl.
  - now destruct p, q.
Qed.

(** X7. With [atol=0.0] nothing but zero is close to zero: a finite float
    compares [True] with 0.0, on either side, exactly when it is zero. *)
Theorem check_equality_zero (x : Q) :
  (check_equality (Leaf (LFloat (Finite x))) (Leaf (LFloat (Finite 0)))
   = Ok true <-> (x == 0)%Q)
  /\ (check_equality (Leaf (LFloat (Finite 0))) (Leaf (LFloat (Finite x)))
      = Ok true <-> (x == 0)%Q).
Proof.
  rewrite !check_equality_leaves, !leaf_close_floats.
  assert (Hzero : (Qabs x <= 0 -> x == 0)%Q).
  { intros Hle. apply Qabs_Qle_condition in Hle. lra. }
  pose proof (Qabs_nonneg x) as Hnn. pose proof tiny_pos as Htiny.
  assert (Hu0 : underflow 0 = 0%Q) by reflexivity.
  assert (Hpos : ~ (x == 0)%Q -> (0 < Qabs x)%Q).
  { intros Hne. destruct (Qlt_le_dec 0 (Qabs x)); [assumption|].
    destruct Hne. now apply Hzero. }
  split; split.
  - intros [= Hclose]. destruct (Qeq_dec x 0) as [|Hne]; [assumption|].
    rewrite allclose_above in Hclose; [discriminate|].
    rewrite Hu0, (Qabs_wd (x - 0) x) by ring.
    assert (H0 : (rtol_above * Qabs 0 + 0 == 0)%Q) by reflexivity.
    rewrite H0. now apply Hpos.
  - intros Hx. f_equal. apply allclose_below.
    rewrite (Qabs_wd (x - 0) 0) by (rewrite Hx; ring). discriminate.
  - intros [= Hclose]. destruct (Qeq_dec x 0) as [|Hne]; [assumption|].
    rewrite allclose_above in Hclose; [discriminate|].
    rewrite (Qabs_wd (0 - x) (- x)) by ring. rewrite Qabs_opp.
    specialize (Hpos Hne). unfold underflow, rtol_above.
    destruct (Qle_bool (4 * tiny) (Qabs x)) eqn:H3;
      [apply Qle_bool_iff in H3|]; lra.
  - intros Hx. f_equal. apply allclose_below.
    rewrite (Qabs_wd (0 - x) 0) by (rewrite Hx; ring).
    rewrite (Qabs_wd x 0) by assumption. discriminate.
Qed.

End ComparatorMore.

(** ** More on the HDF writer *)

Section HdfMore.
Context `{US : UnitSystem} `{PL : PandasLib} `{HL : !HdfLib}.


(** X11. The first record: when the loop over the items has gone through,
    a scalar was buffered, the store opens and holds nothing under
    [path/scalars], [to_hdf] returns and writes the Series of the buffered
    scalars there as it is; the store is opened, asked for the key and
    closed, and nothing is read from it. *)
Theorem to_hdf_first_scalars (path : string)
    (elements : list (string * element)) (complevel : nat) (complib : string)
    (f f1 : hdf) (scalars : gmap string scalar) :
  to_hdf_loop path elements ∅ f = (f1, Ok scalars) ->
  (exists key value, In (key, value) elements /\ isscalar value = true) ->
  hdf_opens complevel complib = true ->
  hdf_contains (os_path_join path "scalars") (contents f1) = false ->
  to_hdf path elements complevel complib f
  = (mkHdf (hdf_put (os_path_join path "scalars")
              (Series (Series_of_dict scalars)) (contents f1))
           (trace f1 ++ [Open complevel complib;
                         Contains (os_path_join path "scalars"); Close;
                         Put (os_path_join path "scalars")]),
     Ok ()).
Proof.
  intros Hloop Hscalar Hopens Hnone.
  pose proof (to_hdf_loop_not_empty _ _ _ _ _ Hloop Hscalar) as Hne.
  unfold to_hdf, io_bind. rewrite Hloop.
  rewrite bool_decide_eq_true_2 by assumption.
  now rewrite to_hdf_scalars_run, Hopens, Hnone.
Qed.

(** *** What is buffered *)

Lemma buffered_cons key value (items : list (string * element)) scalars :
  buffered ((key, value) :: items) scalars
  = buffered items
      match cgs value with
      | PScalar x => <[key := x]> scalars
      | _ => scalars
      end.
Proof. reflexivity. Qed.

Lemma to_hdf_loop_buffered path (items : list (string * element)) :
  forall scalars f f' scalars',
    to_hdf_loop path items scalars f = (f', Ok scalars') ->
    scalars' = buffered items scalars.
Proof.
  induction items as [|[key value] items IH]; intros scalars f f' scalars';
    cbn [to_hdf_loop].
  - now intros [= _ <-].
  - unfold io_bind. rewrite buffered_cons.
    destruct (isscalar value) eqn:Hsc.
    + destruct (to_hdf_item_scalar path scalars key value f Hsc) as [x [Hx ->]].
      rewrite Hx. apply IH.
    + destruct (to_hdf_item path scalars key value f) as [f1 [scalars1|e]] eqn:Hitem;
        [|discriminate].
      rewrite (to_hdf_item_not_scalar _ _ _ _ _ _ _ Hsc Hitem).
      unfold isscalar in Hsc.
      destruct (cgs value); [discriminate|apply IH..].
Qed.

Lemma buffered_other_key (items : list (string * element)) :
  forall scalars k,
    (forall value, ~ In (k, value) items) ->
    buffered items scalars !! k = scalars !! k.
Proof.
  induction items as [|[key value] items IH]; intros scalars k Hk;
    [reflexivity|].
  rewrite buffered_cons.
  rewrite IH by (intros v Hin; apply (Hk v); now right).
  destruct (cgs value); try reflexivity.
  apply lookup_insert_ne. intros ->. apply (Hk value). now left.
Qed.

Lemma buffered_lookup (items : list (string * element)) :
  NoDup (map fst items) ->
  forall k x,
    buffered items ∅ !! k = Some x
    <-> exists value, In (k, value) items /\ cgs value = PScalar x.
Proof.
  intros Hnd.
  assert (Hgen : forall scalars k x,
             buffered items scalars !! k = Some x
             <-> (exists value, In (k, value) items /\ cgs value = PScalar x)
                 \/ ((forall value, In (k, value) items -> isscalar value = false)
                     /\ scalars !! k = Some x)).
  { induction items as [|[key value] items IH]; intros scalars k x.
    - simpl. split.
      + intros Hx. right. split; [intros ? []|exact Hx].
      + intros [[? [[] _]]|[_ Hx]]. exact Hx.
    - apply NoDup_cons in Hnd as [Hkey Hnd].
      assert (Hfresh : forall v, ~ In (key, v) items).
      { intros v Hin. apply Hkey. apply list_elem_of_In.
        exact (in_map fst items (key, v) Hin). }
      rewrite buffered_cons.
      rewrite (IH Hnd). clear IH. split.
      + intros [[v [Hin Hv]]|[Hall Hx]].
        * left. exists v. split; [now right|assumption].
        * destruct (decide (key = k)) as [->|Hne].
          -- destruct (cgs value) as [x0|a|o] eqn:Hcgs.
             ++ rewrite lookup_insert_eq in Hx. inversion Hx; subst.
                left. exists value. split; [now left|assumption].
             ++ right. split; [|assumption].
                intros v [[= <-]|Hin]; [|now destruct (Hfresh v)].
                unfold isscalar. now rewrite Hcgs.
             ++ right. split; [|assumption].
                intros v [[= <-]|Hin]; [|now destruct (Hfresh v)].
                unfold isscalar. now rewrite Hcgs.
          -- right. split.
             ++ intros v [[= -> _]|Hin]; [congruence|now apply Hall].
             ++ destruct (cgs value); try assumption.
                now rewrite lookup_insert_ne in Hx.
      + intros [[v [[[= -> ->]|Hin] Hv]]|[Hall Hx]].
        * right. split.
          -- intros v' Hin. now destruct (Hfresh v').
          -- rewrite Hv. apply lookup_insert_eq.
        * left. eauto.
        * right. split.
          -- intros v Hin. apply Hall. now right.
          -- destruct (decide (key = k)) as [->|Hne].
             ++ pose proof (Hall value (or_introl eq_refl)) as Hv.
                unfold isscalar in Hv. destruct (cgs value); [discriminate|assumption..].
             ++ destruct (cgs value); try assumption.
                now rewrite lookup_insert_ne. }
  intros k x. rewrite Hgen. split.
  - intros [Hex|[_ Hx]]; [exact Hex|]. now rewrite lookup_empty in Hx.
  - intros Hex. now left.
Qed.

(** X12. What the loop buffers does not depend on the file: when the names
    of [elements] are distinct (as the keys of a dict are), the [scalars]
    dict holds under a name exactly the scalar the element of that name
    is once its unit is gone; a scalar Quantity is buffered as its CGS
    value. *)
Theorem to_hdf_loop_buffer (path : string)
    (elements : list (string * element)) (f f1 : hdf)
    (scalars : gmap string scalar) :
  NoDup (map fst elements) ->
  to_hdf_loop path elements ∅ f = (f1, Ok scalars) ->
  (forall k x,
      scalars !! k = Some x
      <-> exists value, In (k, value) elements /\ cgs value = PScalar x)
  /\ (forall k q,
        In (k, EQuantity q) elements ->
        scalars !! k
        = Some (SFloat (cgs_value (Quantity_unit q) (Quantity_value q)))).
Proof.
  intros Hnd Hloop.
  rewrite (to_hdf_loop_buffered _ _ _ _ _ _ Hloop).
  split; [apply buffered_lookup; assumption|].
  intros k q Hin. apply buffered_lookup; [assumption|].
  exists (EQuantity q). split; [assumption|reflexivity].
Qed.

End HdfMore.

(** ** More on the quantity parser and the loader *)

Section ParserMore.
Context `{FL : FloatLib} `{US : UnitSystem}.
Import PyStr PyStrFacts.

(** X13. A number, whitespace and a unit text that is not [log_lsun]: the
    value is the float the number reads as, unchanged, and the unit is what
    the unit system makes of the unit text (its trailing whitespace
    included); a unit text the unit system refuses raises [ValueError]. *)
Theorem quantity_from_str_plain_unit (lead v_str sep : string) (c : ascii)
    (rest : string) (v : pyfloat) :
  all_space lead = true ->
  no_space v_str = true -> v_str <> EmptyString ->
  all_space sep = true -> sep <> EmptyString ->
  isspace c = false ->
  strip (String c rest) <> "log_lsun" ->
  float_of_str v_str = Some v ->
  quantity_from_str (lead ++ v_str ++ sep ++ String c rest)
  = match Unit (String c rest) with
    | Some u => Ok (mkQuantity v u)
    | None => Raise ValueError
    end.
Proof.
  intros Hlead Hv Hv0 Hsep Hsep0 Hc Hunit Hfloat.
  unfold quantity_from_str.
  rewrite (split_two lead v_str sep c rest Hlead Hv Hv0 Hsep Hsep0 Hc).
  unfold float. rewrite Hfloat. simpl mbind. unfold result_bind.
  apply String.eqb_neq in Hunit. rewrite Hunit. reflexivity.
Qed.

(** X14. Whitespace in front of the text changes nothing: the result, and
    the exception, are those of the text without it. *)
Theorem quantity_from_str_leading_space (lead text : string) :
  all_space lead = true ->
  quantity_from_str (lead ++ text) = quantity_from_str text.
Proof.
  intros Hlead. unfold quantity_from_str, split_None_1.
  now rewrite (lstrip_all_space _ _ Hlead).
Qed.

End ParserMore.

Module OrderedDictMore.
Import OrderedDict.
Section Facts.
Context {V : Type}.
Implicit Types (d : list (string * V)) (k : string) (v : V).

Lemma get_set d k v k' :
  get (set d k v) k' = if String.eqb k k' then Some v else get d k'.
Proof.
  induction d as [|[k0 v0] d IH]; simpl; [reflexivity|].
  destruct (String.eqb k0 k) eqn:Hk0; simpl.
  - apply String.eqb_eq in Hk0. subst k0. now destruct (String.eqb k k').
  - rewrite IH. destruct (String.eqb k0 k') eqn:Hk0'; [|reflexivity].
    apply String.eqb_eq in Hk0'. subst k0. now rewrite String.eqb_sym, Hk0.
Qed.

Lemma get_app d1 d2 k :
  get (d1 ++ d2) k = match get d1 k with Some v => Some v | None => get d2 k end.
Proof.
  induction d1 as [|[k0 v0] d1 IH]; simpl; [reflexivity|].
  now destruct (String.eqb k0 k).
Qed.

Lemma get_not_key d k : ~ In k (keys d) -> get d k = None.
Proof.
  induction d as [|[k0 v0] d IH]; simpl; [reflexivity|]. intros Hk.
  destruct (String.eqb k0 k) eqn:Hk0.
  - apply String.eqb_eq in Hk0. destruct Hk. now left.
  - apply IH. intros Hin. apply Hk. now right.
Qed.

Lemma get_fold_set (pairs : list (string * V)) : forall d k,
  get (fold_left (fun d kv => set d (fst kv) (snd kv)) pairs d) k
  = match get (rev pairs) k with Some v => Some v | None => get d k end.
Proof.
  induction pairs as [|[k0 v0] pairs IH]; intros d k; simpl; [reflexivity|].
  rewrite IH, get_app, get_set. simpl.
  destruct (get (rev pairs) k); [reflexivity|].
  now destruct (String.eqb k0 k).
Qed.

(** [OrderedDict(pairs)[k]] is the value of the last pair with the key. *)
Lemma get_of_pairs (pairs : list (string * V)) k :
  get (of_pairs pairs) k = get (rev pairs) k.
Proof.
  unfold of_pairs. rewrite get_fold_set. now destruct (get (rev pairs) k).
Qed.

Lemma get_of_pairs_last (pre post : list (string * V)) k v :
  ~ In k (keys post) ->
  get (of_pairs (pre ++ (k, v) :: post)) k = Some v.
Proof.
  intros Hpost. rewrite get_of_pairs, rev_app_distr. simpl.
  rewrite <- app_assoc, get_app, get_not_key.
  - simpl. now rewrite String.eqb_refl.
  - unfold keys. rewrite map_rev. intros Hin. apply Hpost.
    now apply in_rev in Hin.
Qed.

End Facts.
End OrderedDictMore.

Lemma mapM_Forall2_Ok {A B : Type} (f : A -> result B) (l : list A)
    (l' : list B) :
  Forall2 (fun x y => f x = Ok y) l l' -> mapM f l = Ok l'.
Proof.
  induction 1 as [|x y l l' Hx _ IH]; simpl; [reflexivity|].
  now rewrite Hx, IH.
Qed.

Section LoaderMore.
Context `{FL : FloatLib} `{YL : YamlLib}.
Import OrderedDict OrderedDictMore YAMLLoader.

(** X15. A key written more than once in a mapping is no error: the
    mapping is loaded, and holds under the key the value written last. *)
Theorem mapping_repeated_key_last_value (pre post : list (string * node))
    (k : string) (n : node) (v : config) (d : list (string * config)) :
  ~ In k (map fst post) ->
  construct_object n = Ok v ->
  construct_object (MappingNode (pre ++ (k, n) :: post)) = Ok (PyDict d) ->
  get d k = Some v.
Proof.
  intros Hpost Hn Hload.
  change (construct_object (MappingNode (pre ++ (k, n) :: post)))
    with (mapping_constructor construct_object (pre ++ (k, n) :: post)) in Hload.
  unfold mapping_constructor, construct_pairs in Hload.
  destruct (mapM (fun kv => v ← construct_object (snd kv); mret (fst kv, v))
                 (pre ++ (k, n) :: post)) as [items|e] eqn:Hitems;
    simpl in Hload; [|discriminate].
  inversion Hload; subst d. clear Hload.
  apply mapM_Ok_Forall2 in Hitems.
  apply Forall2_app_inv_l in Hitems as (ipre & irest & Hpre & Hrest & ->).
  inversion Hrest as [|? [k' v'] ? ipost Hkv Hposts]; subst.
  simpl in Hkv. rewrite Hn in Hkv. inversion Hkv; subst k' v'.
  apply get_of_pairs_last.
  assert (Hkeys : keys ipost = map fst post).
  { clear -Hposts. unfold keys.
    induction Hposts as [|[k1 n1] [k2 v2] post ipost Hkv _ IH]; simpl;
      [reflexivity|].
    f_equal; [|exact IH].
    simpl in Hkv. destruct (construct_object n1); simpl in Hkv; [|discriminate].
    now inversion Hkv. }
  now rewrite Hkeys.
Qed.

(** A sequence node is loaded as the list of its items, each loaded,
    in document order and in the same number; it loads exactly when they
    all do. *)
Theorem sequence_loads_items (items : list node) (tree : config) :
  construct_object (SequenceNode items) = Ok tree
  <-> exists l, tree = PyList l
                /\ Forall2 (fun n v => construct_object n = Ok v) items l.
Proof.
  change (construct_object (SequenceNode items))
    with (l ← mapM construct_object items; mret (PyList l)).
  split.
  - destruct (mapM construct_object items) as [l|e] eqn:Hl; simpl;
      [|discriminate].
    intros [= <-]. exists l. split; [reflexivity|now apply mapM_Ok_Forall2].
  - intros [l [-> Hl]]. now rewrite (mapM_Forall2_Ok _ _ _ Hl).
Qed.

End LoaderMore.

(** ** Abundances *)

Section AbundanceFacts.
Context `{FL : FloatLib} `{TU : TardisUtil}.

Lemma dict_of_pairs_key (pairs : list (Z * pyfloat)) (z : Z) :
  is_Some (dict_of_pairs pairs !! z) <-> In z (map fst pairs).
Proof.
  unfold dict_of_pairs.
  assert (Hgen : forall d : gmap Z pyfloat,
             is_Some (fold_left (fun d kv => <[fst kv := snd kv]> d) pairs d !! z)
             <-> is_Some (d !! z) \/ In z (map fst pairs)).
  { induction pairs as [|[z0 x0] pairs IH]; intros d; simpl.
    - split; [auto|now intros [?|[]]].
    - rewrite IH. destruct (decide (z0 = z)) as [->|Hne].
      + rewrite lookup_insert_eq. split; [auto|eauto].
      + rewrite lookup_insert_ne by assumption. split.
        * intros [?|?]; auto.
        * intros [?|[?|?]]; [auto|congruence|auto]. }
  rewrite Hgen. split; [|auto].
  intros [[x Hx]|?]; [|assumption]. now rewrite lookup_empty in Hx.
Qed.

Lemma sorted_keys_key (d : gmap Z pyfloat) (z : Z) :
  In z (sorted_keys d) <-> is_Some (d !! z).
Proof.
  unfold sorted_keys. rewrite <- list_elem_of_In, merge_sort_Permutation.
  rewrite list_elem_of_fmap. split.
  - intros [[z' x] [-> Hin]]. apply elem_of_map_to_list in Hin. simpl. eauto.
  - intros [x Hx]. exists (z, x). split; [reflexivity|].
    now apply elem_of_map_to_list.
Qed.

Lemma StronglySorted_le_lt (l : list Z) :
  StronglySorted Z.le l -> NoDup l -> StronglySorted Z.lt l.
Proof.
  induction 1 as [|z l Hl IH Hall]; intros Hnd; constructor.
  - apply IH. now apply NoDup_cons in Hnd as [_ Hnd].
  - apply NoDup_cons in Hnd as [Hz _].
    rewrite List.Forall_forall in Hall. apply List.Forall_forall.
    intros z' Hz'. pose proof (Hall z' Hz') as Hle.
    assert (z <> z') by (intros ->; apply Hz; now apply list_elem_of_In).
    lia.
Qed.

(** The sorted keys increase strictly: no key comes twice. *)
Lemma sorted_keys_strict (d : gmap Z pyfloat) : StronglySorted Z.lt (sorted_keys d).
Proof.
  apply StronglySorted_le_lt.
  - unfold sorted_keys. apply StronglySorted_merge_sort; apply _.
  - unfold sorted_keys. rewrite merge_sort_Permutation.
    apply NoDup_fst_map_to_list.
Qed.

Lemma Series_of_keys_index (d : gmap Z pyfloat) (index : list Z) :
  (forall z, In z index -> is_Some (d !! z)) ->
  map fst (Series_of_keys d index) = index.
Proof.
  unfold Series_of_keys.
  induction index as [|z index IH]; intros Hall; [reflexivity|].
  destruct (Hall z (or_introl eq_refl)) as [x Hx].
  cbn [omap list_omap]. rewrite Hx. simpl. f_equal.
  apply IH. intros z' Hz'. apply Hall. now right.
Qed.

Lemma abundance_series_index (abundance_dict : list (string * pyfloat))
    (abundances : list (Z * pyfloat)) :
  abundance_series abundance_dict = Ok abundances ->
  StronglySorted Z.lt (map fst abundances)
  /\ forall z, In z (map fst abundances)
               <-> exists symbol x,
                     In (symbol, x) abundance_dict
                     /\ element_symbol2atomic_number symbol = Ok z.
Proof.
  unfold abundance_series.
  destruct (mapM (fun kv => z ← element_symbol2atomic_number (fst kv);
                            mret (z, snd kv)) abundance_dict)
    as [pairs|e] eqn:Hpairs; simpl; [|discriminate].
  intros [= <-].
  rewrite Series_of_keys_index by (intros z; apply sorted_keys_key).
  split; [apply sorted_keys_strict|].
  intros z. rewrite sorted_keys_key, dict_of_pairs_key.
  apply mapM_Ok_Forall2 in Hpairs. clear -Hpairs.
  induction Hpairs as [|[symbol x] [z' x'] dict pairs Hkv _ IH]; simpl.
  - split; [intros []|intros (? & ? & [] & _)].
  - simpl in Hkv.
    destruct (element_symbol2atomic_number symbol) as [z0|] eqn:Hz0;
      simpl in Hkv; [|discriminate].
    inversion Hkv; subst z' x'. rewrite IH. split.
    + intros [<-|(s & y & Hin & Hs)].
      * exists symbol, x. split; [now left|assumption].
      * exists s, y. split; [now right|assumption].
    + intros (s & y & [[= -> ->]|Hin] & Hs).
      * left. congruence.
      * right. eauto.
Qed.

Lemma parse_abundance_index (abundance_dict : list (string * pyfloat))
    (rows : list (Z * pyfloat)) :
  parse_abundance_dict_to_dataframe abundance_dict = Ok rows ->
  exists abundances,
    abundance_series abundance_dict = Ok abundances
    /\ map fst rows = map fst abundances.
Proof.
  unfold parse_abundance_dict_to_dataframe.
  destruct (abundance_series abundance_dict) as [abundances|e]; simpl;
    [|discriminate].
  intros Hrows. exists abundances. split; [reflexivity|].
  destruct (off_unity _); inversion Hrows; subst rows; [|reflexivity].
  rewrite map_map. now apply map_ext.
Qed.

(** X17. The Series of abundances is indexed by atomic number in strictly
    increasing order, with one row for each atomic number that a symbol of
    the dict stands for (two symbols of one element give one row). *)
Theorem parse_abundance_sorted_index (abundance_dict : list (string * pyfloat))
    (rows : list (Z * pyfloat)) :
  parse_abundance_dict_to_dataframe abundance_dict = Ok rows ->
  StronglySorted Z.lt (map fst rows)
  /\ forall z, In z (map fst rows)
               <-> exists symbol x,
                     In (symbol, x) abundance_dict
                     /\ element_symbol2atomic_number symbol = Ok z.
Proof.
  intros Hrows.
  destruct (parse_abundance_index _ _ Hrows) as [abundances [Hab ->]].
  now apply abundance_series_index.
Qed.

End AbundanceFacts.

(** ** Regular expressions *)

Module ReFacts.
Import Re.

Lemma sapp_nil_l (s : string) : (EmptyString ++ s)%string = s.
Proof. reflexivity. Qed.

Lemma sapp_cons (c : ascii) (s t : string) :
  (String c s ++ t)%string = String c (s ++ t).
Proof. reflexivity. Qed.

Lemma sapp_nil_r (s : string) : (s ++ EmptyString)%string = s.
Proof.
  induction s as [|c s IH]; [reflexivity|]. now rewrite sapp_cons, IH.
Qed.

Lemma sapp_assoc (s t u : string) :
  ((s ++ t) ++ u)%string = (s ++ t ++ u)%string.
Proof.
  induction s as [|c s IH]; [reflexivity|]. now rewrite !sapp_cons, IH.
Qed.

Lemma sapp_empty (s t : string) :
  (s ++ t)%string = EmptyString -> s = EmptyString /\ t = EmptyString.
Proof.
  destruct s as [|c s]; [now rewrite sapp_nil_l|].
  rewrite sapp_cons. discriminate.
Qed.

Lemma sapp_cons_inv (c : ascii) (s s1 s2 : string) :
  String c s = (s1 ++ s2)%string ->
  (s1 = EmptyString /\ s2 = String c s)
  \/ exists s1', s1 = String c s1' /\ s = (s1' ++ s2)%string.
Proof.
  destruct s1 as [|c1 s1].
  - rewrite sapp_nil_l. intros <-. now left.
  - rewrite sapp_cons. intros [= <- ->]. right. now exists s1.
Qed.

(** *** Matching with derivatives is membership in the language *)

Lemma nullable_lang (r : regex) : nullable r = true <-> lang r EmptyString.
Proof.
  induction r as [| |p|r1 IH1 r2 IH2|r1 IH1 r2 IH2|r1 IH1 r2 IH2|r IH]; simpl.
  - split; [discriminate|intros []].
  - split; reflexivity.
  - split; [discriminate|intros (c & [=] & _)].
  - rewrite andb_true_iff, IH1, IH2. split.
    + intros [H1 H2]. now exists EmptyString, EmptyString.
    + intros (s1 & s2 & Hs & H1 & H2). symmetry in Hs.
      apply sapp_empty in Hs as [-> ->]. auto.
  - now rewrite orb_true_iff, IH1, IH2.
  - now rewrite andb_true_iff, IH1, IH2.
  - split; [|reflexivity]. intros _. exists []. split; [reflexivity|constructor].
Qed.

Lemma deriv_lang (r : regex) : forall (c : ascii) (s : string),
  lang (deriv c r) s <-> lang r (String c s).
Proof.
  induction r as [| |p|r1 IH1 r2 IH2|r1 IH1 r2 IH2|r1 IH1 r2 IH2|r IH];
    intros c s; simpl.
  - reflexivity.
  - split; [intros []|discriminate].
  - destruct (p c) eqn:Hp; simpl; split.
    + intros ->. now exists c.
    + intros (c' & [= Hc Hs] & _). now subst.
    + intros [].
    + intros (c' & [= Hc Hs] & Hp'). subst. congruence.
  - split.
    + intros [(s1 & s2 & -> & H1 & H2)|Hn].
      * exists (String c s1), s2. rewrite sapp_cons.
        split; [reflexivity|]. split; [now apply IH1|assumption].
      * destruct (nullable r1) eqn:Hnull; [|destruct Hn].
        exists EmptyString, (String c s).
        split; [reflexivity|]. split; [now apply nullable_lang|now apply IH2].
    + intros (s1 & s2 & Hs & H1 & H2).
      apply sapp_cons_inv in Hs as [[-> ->]|(s1' & -> & ->)].
      * right. apply nullable_lang in H1. rewrite H1. now apply IH2.
      * left. exists s1', s2. split; [reflexivity|].
        split; [now apply IH1|assumption].
  - now rewrite IH1, IH2.
  - now rewrite IH1, IH2.
  - split.
    + intros (s1 & s2 & -> & H1 & (ss & -> & Hss)).
      exists (String c s1 :: ss). split; [reflexivity|].
      constructor; [now apply IH|assumption].
    + intros (ss & Hs & Hss). induction Hss as [|x ss Hx Hss IHss].
      * discriminate.
      * change (concat_all (x :: ss)) with (x ++ concat_all ss)%string in Hs.
        apply sapp_cons_inv in Hs as [[-> Hs]|(x' & -> & ->)].
        -- apply IHss. now rewrite Hs.
        -- exists x', (concat_all ss). split; [reflexivity|].
           split; [now apply IH|]. now exists ss.
Qed.

(** The pattern matches the text exactly when the text is in its
    language. *)
Lemma matches_lang (s : string) : forall r : regex,
  matches r s = true <-> lang r s.
Proof.
  induction s as [|c s IH]; intros r; simpl.
  - apply nullable_lang.
  - rewrite IH. apply deriv_lang.
Qed.

(** *** What the languages are made of *)

Lemma lang_Star_Chr (p : ascii -> bool) (P : ascii -> bool) (s : string) :
  (forall c, p c = true -> P c = true) ->
  lang (Star (Chr p)) s ->
  forallb P (list_ascii_of_string s) = true.
Proof.
  intros Hp (ss & -> & Hss). induction Hss as [|x ss Hx _ IH]; [reflexivity|].
  destruct Hx as (c & -> & Hc).
  change (concat_all (String c EmptyString :: ss))
    with (String c (concat_all ss)).
  simpl. now rewrite (Hp c Hc), IH.
Qed.

(** Every character the pattern reads satisfies [P]. *)
Fixpoint reads_only (P : ascii -> bool) (r : regex) : Prop :=
  match r with
  | Empty | Eps => True
  | Chr p => forall c, p c = true -> P c = true
  | Seq r1 r2 | Alt r1 r2 => reads_only P r1 /\ reads_only P r2
  | And r1 r2 => reads_only P r1 \/ reads_only P r2
  | Star r1 => reads_only P r1
  end.

Lemma forallb_sapp (P : ascii -> bool) (s t : string) :
  forallb P (list_ascii_of_string (s ++ t))
  = forallb P (list_ascii_of_string s) && forallb P (list_ascii_of_string t).
Proof.
  induction s as [|c s IH]; [reflexivity|].
  rewrite sapp_cons. simpl. now rewrite IH, andb_assoc.
Qed.

Lemma reads_only_lang (P : ascii -> bool) (r : regex) : forall s,
  reads_only P r -> lang r s -> forallb P (list_ascii_of_string s) = true.
Proof.
  induction r as [| |p|r1 IH1 r2 IH2|r1 IH1 r2 IH2|r1 IH1 r2 IH2|r IH];
    intros s; simpl.
  - intros _ [].
  - now intros _ ->.
  - intros Hp (c & -> & Hc). simpl. now rewrite (Hp c Hc).
  - intros [H1 H2] (s1 & s2 & -> & Hs1 & Hs2).
    rewrite forallb_sapp, (IH1 _ H1 Hs1), (IH2 _ H2 Hs2). reflexivity.
  - intros [H1 H2] [Hs|Hs]; auto.
  - intros [H|H] [Hs1 Hs2]; auto.
  - intros Hr (ss & -> & Hss). induction Hss as [|x ss Hx _ IHss];
      [reflexivity|].
    change (concat_all (x :: ss)) with (x ++ concat_all ss)%string.
    rewrite forallb_sapp, (IH _ Hr Hx), IHss. reflexivity.
Qed.

Lemma no_space_forallb (s : string) :
  PyStr.no_space s = forallb (fun c => negb (PyStr.isspace c))
                             (list_ascii_of_string s).
Proof. induction s as [|c s IH]; simpl; [reflexivity|]. now rewrite IH. Qed.

Lemma all_space_forallb (s : string) :
  PyStr.all_space s = forallb PyStr.isspace (list_ascii_of_string s).
Proof. induction s as [|c s IH]; simpl; [reflexivity|]. now rewrite IH. Qed.

End ReFacts.

(** ** The patterns of the loader *)

Module PatternFacts.
Import Re ReFacts PyStr PyStrFacts.

(** A fact about every byte, by looking at each. *)
Ltac each_byte :=
  let c := fresh "c" in
  intros c; destruct c as [[] [] [] [] [] [] [] []]; vm_compute;
  first [reflexivity | discriminate | (intros; first [reflexivity | discriminate])].

Lemma digit_first : forall c, digit c = true -> one_of resolver_first c = true.
Proof. each_byte. Qed.

Lemma sign_first : forall c, one_of "-+" c = true -> one_of resolver_first c = true.
Proof. each_byte. Qed.

Lemma point_first : forall c, one_of "." c = true -> one_of resolver_first c = true.
Proof. each_byte. Qed.

Lemma letter_i_first : forall c, letter "i" c = true -> one_of resolver_first c = true.
Proof. each_byte. Qed.

Lemma letter_n_first : forall c, letter "n" c = true -> one_of resolver_first c = true.
Proof. each_byte. Qed.

Lemma digit_no_space : forall c, digit c = true -> negb (isspace c) = true.
Proof. each_byte. Qed.

Lemma point_no_digit : forall c, one_of "." c = true -> digit c = false.
Proof. each_byte. Qed.

Lemma space_no_digit : forall c, isspace c = true -> digit c = false.
Proof. each_byte. Qed.

Lemma space_no_point : forall c, isspace c = true -> one_of "." c = false.
Proof. each_byte. Qed.

Lemma unit_start_no_space : forall c, unit_start c = true -> isspace c = false.
Proof. each_byte. Qed.

Lemma line_feed_space : forall c, Ascii.eqb "010" c = true -> isspace c = true.
Proof. each_byte. Qed.

Lemma sign_no_space : reads_only (fun c => negb (isspace c)) sign.
Proof. unfold sign, Opt. simpl. split; [exact I|each_byte]. Qed.

Lemma number_no_space : reads_only (fun c => negb (isspace c)) number.
Proof. unfold number, Opt, Plus. simpl. repeat split; each_byte. Qed.

Lemma infinity_no_space : reads_only (fun c => negb (isspace c)) infinity.
Proof. unfold infinity, Opt. simpl. repeat split; each_byte. Qed.

Lemma nan_no_space : reads_only (fun c => negb (isspace c)) nan.
Proof. unfold nan. simpl. repeat split; each_byte. Qed.

Lemma lang_no_space (r : regex) (s : string) :
  reads_only (fun c => negb (isspace c)) r -> lang r s -> no_space s = true.
Proof. rewrite no_space_forallb. apply reads_only_lang. Qed.

Lemma no_space_sapp (s t : string) :
  no_space (s ++ t) = no_space s && no_space t.
Proof. rewrite !no_space_forallb. apply forallb_sapp. Qed.

Lemma lang_Anything (s : string) : lang Anything s.
Proof.
  induction s as [|c s (ss & -> & Hss)].
  - exists []. split; [reflexivity|constructor].
  - exists (String c EmptyString :: ss). split; [reflexivity|].
    constructor; [now exists c|assumption].
Qed.

(** *** The parts of a text the patterns read *)

Lemma lang_sign (sg : string) :
  lang sign sg ->
  sg = EmptyString \/ exists c, sg = String c EmptyString /\ one_of "-+" c = true.
Proof. intros [->|Hc]; [now left|now right]. Qed.

Lemma lang_Dollar (d : string) :
  lang Dollar d -> all_space d = true.
Proof.
  intros [->|(c & -> & Hc)]; [reflexivity|].
  simpl. now rewrite (line_feed_space c Hc).
Qed.

Lemma lang_spaces (sp : string) :
  lang (Plus (Chr space)) sp ->
  all_space sp = true /\ exists c r, sp = String c r /\ isspace c = true.
Proof.
  intros (s1 & s2 & -> & (c & -> & Hc) & Hs2).
  rewrite sapp_cons, sapp_nil_l. split; [|now exists c, s2].
  simpl. unfold space in Hc. rewrite Hc. simpl.
  rewrite all_space_forallb. eapply lang_Star_Chr; [|exact Hs2]. auto.
Qed.

Lemma lang_unit_pattern (u : string) :
  lang unit_pattern u -> exists c r, u = String c r /\ isspace c = false.
Proof.
  intros (s1 & s2 & -> & (c & -> & Hc) & _).
  exists c, s2. split; [reflexivity|now apply unit_start_no_space].
Qed.

Lemma lang_literal_cons (c0 : ascii) (w body : string) :
  lang (literal (String c0 w)) body ->
  exists c r, body = String c r /\ letter c0 c = true.
Proof. intros (s1 & s2 & -> & (c & -> & Hc) & _). now exists c, s2. Qed.

Lemma lang_infinity (body : string) :
  lang infinity body -> exists c r, body = String c r /\ letter "i" c = true.
Proof.
  intros (s1 & s2 & -> & H1 & _).
  apply lang_literal_cons in H1 as (c & r & -> & Hc). now exists c, (r ++ s2)%string.
Qed.

(** The lookahead, as a test on the text that follows. *)
Definition ahead (x : string) : bool :=
  match x with
  | String c r =>
      digit c
      || (one_of "." c && match r with String d _ => digit d | _ => false end)
  | EmptyString => false
  end.

Lemma ahead_lang (x : string) :
  lang (Seq digit_ahead Anything) x <-> ahead x = true.
Proof.
  split.
  - intros (s1 & s2 & -> &
            [(c & -> & Hd)|(s3 & s4 & -> & (c & -> & Hp) & (d & -> & Hd))] & _).
    + simpl. now rewrite Hd.
    + simpl. now rewrite Hp, Hd, orb_true_r.
  - destruct x as [|c r]; simpl; [discriminate|].
    destruct (digit c) eqn:Hc; simpl.
    + intros _. exists (String c EmptyString), r.
      split; [reflexivity|]. split; [|apply lang_Anything].
      left. now exists c.
    + destruct (one_of "." c) eqn:Hp; simpl; [|discriminate].
      destruct r as [|d r]; [discriminate|]. intros Hd.
      exists (String c (String d EmptyString)), r.
      split; [reflexivity|]. split; [|apply lang_Anything].
      right. exists (String c EmptyString), (String d EmptyString).
      split; [reflexivity|]. split; [now exists c|now exists d].
Qed.

(** Whitespace after the number decides nothing of the lookahead. *)
Lemma ahead_before_space (body : string) (c : ascii) (t : string) :
  isspace c = true ->
  ahead (body ++ String c t) = ahead body.
Proof.
  intros Hc. destruct body as [|b [|d body]].
  - rewrite sapp_nil_l. simpl.
    now rewrite (space_no_digit c Hc), (space_no_point c Hc).
  - rewrite sapp_cons, sapp_nil_l. simpl. now rewrite (space_no_digit c Hc).
  - reflexivity.
Qed.

(** The body of [float_pattern]: a number the lookahead lets through, an
    infinity, or NaN; [t] is the text that follows it. *)
Definition float_body (body t : string) : Prop :=
  (lang number body /\ ahead (body ++ t) = true)
  \/ lang infinity body \/ lang nan body.

Lemma float_pattern_lang (T : regex) (s : string) :
  lang (float_pattern T) s
  <-> exists sg body t,
        s = (sg ++ body ++ t)%string
        /\ lang sign sg /\ float_body body t /\ lang T t.
Proof.
  unfold float_pattern, Lookahead, float_body. split.
  - intros (sg & rest & -> & Hsg &
            [[Hla (body & t & -> & Hb & Ht)]
            |[(body & t & -> & Hb & Ht)|(body & t & -> & Hb & Ht)]]);
      exists sg, body, t; repeat split; auto.
    left. split; [assumption|now apply ahead_lang].
  - intros (sg & body & t & -> & Hsg & Hbody & Ht).
    exists sg, (body ++ t)%string. split; [reflexivity|]. split; [assumption|].
    destruct Hbody as [[Hb Hla]|[Hb|Hb]].
    + left. split; [now apply ahead_lang|]. now exists body, t.
    + right. left. now exists body, t.
    + right. right. now exists body, t.
Qed.

Lemma float_body_no_space (body t : string) :
  float_body body t -> no_space body = true.
Proof.
  intros [[Hb _]|[Hb|Hb]].
  - exact (lang_no_space _ _ number_no_space Hb).
  - exact (lang_no_space _ _ infinity_no_space Hb).
  - exact (lang_no_space _ _ nan_no_space Hb).
Qed.

(** Before whitespace the body is not empty, and it is a body on its
    own. *)
Lemma float_body_before_space (body : string) (c : ascii) (t : string) :
  isspace c = true ->
  float_body body (String c t) ->
  body <> EmptyString /\ float_body body EmptyString.
Proof.
  intros Hc [[Hb Hla]|[Hb|Hb]].
  - rewrite (ahead_before_space body c t Hc) in Hla. split.
    + intros ->. discriminate Hla.
    + left. split; [assumption|]. now rewrite sapp_nil_r.
  - split; [|right; now left].
    apply lang_infinity in Hb as (c' & r & -> & _). discriminate.
  - split; [|right; now right].
    apply lang_literal_cons in Hb as (c' & r & -> & _). discriminate.
Qed.

Lemma float_pattern_first (T : regex) (s : string) :
  lang (float_pattern T) s -> starts_with_one_of resolver_first s = true.
Proof.
  intros (sg & body & t & -> & Hsg & Hbody & _)%float_pattern_lang.
  apply lang_sign in Hsg as [->|(c & -> & Hc)].
  - rewrite sapp_nil_l. destruct Hbody as [[_ Hla]|[Hb|Hb]].
    + destruct (body ++ t)%string as [|c r]; [discriminate|].
      simpl in Hla. simpl.
      apply orb_true_iff in Hla as [Hd|Hp].
      * now apply digit_first.
      * apply andb_true_iff in Hp as [Hp _]. now apply point_first.
    + apply lang_infinity in Hb as (c & r & -> & Hc).
      rewrite sapp_cons. simpl. now apply letter_i_first.
    + apply lang_literal_cons in Hb as (c & r & -> & Hc).
      rewrite sapp_cons. simpl. now apply letter_n_first.
  - rewrite sapp_cons. simpl. now apply sign_first.
Qed.

(** A word followed by whitespace only splits into itself, or into
    nothing. *)
Lemma split_word_then_space (w d : string) :
  no_space w = true -> all_space d = true ->
  split_None_1 (w ++ d) = [] \/ split_None_1 (w ++ d) = [w].
Proof.
  intros Hw Hd. unfold split_None_1. destruct w as [|c w].
  - left. rewrite sapp_nil_l.
    replace (lstrip d) with EmptyString; [reflexivity|].
    rewrite <- (sapp_nil_r d), (lstrip_all_space d EmptyString Hd). reflexivity.
  - right. pose proof Hw as Hc. simpl in Hc. apply andb_prop in Hc as [Hc _].
    apply negb_true_iff in Hc. rewrite sapp_cons, (lstrip_word _ _ Hc).
    rewrite <- sapp_cons.
    assert (Hspan : span_word (String c w ++ d) = (String c w, d)).
    { destruct d as [|e d].
      - rewrite sapp_nil_r. now apply span_word_no_space.
      - simpl in Hd. apply andb_prop in Hd as [He _].
        now apply span_word_app. }
    rewrite sapp_cons in Hspan. rewrite sapp_cons, Hspan.
    replace (lstrip d) with EmptyString; [reflexivity|].
    rewrite <- (sapp_nil_r d), (lstrip_all_space d EmptyString Hd). reflexivity.
Qed.

(** What [float_regex] reads: a word without whitespace, and a line feed or
    nothing after it. *)
Lemma float_regex_word (s : string) :
  lang float_regex s ->
  exists w d, s = (w ++ d)%string /\ no_space w = true /\ all_space d = true.
Proof.
  intros (sg & body & t & -> & Hsg & Hbody & Ht)%float_pattern_lang.
  exists (sg ++ body)%string, t. split; [now rewrite sapp_assoc|].
  split; [|now apply lang_Dollar].
  rewrite no_space_sapp, (lang_no_space _ _ sign_no_space Hsg).
  now rewrite (float_body_no_space _ _ Hbody).
Qed.

(** What [quantity_regex] reads: a word [float_regex] reads, whitespace,
    and a unit text that starts with no whitespace. *)
Lemma quantity_regex_parts (s : string) :
  lang quantity_regex s ->
  exists w sp c rest,
    s = (w ++ sp ++ String c rest)%string
    /\ no_space w = true /\ w <> EmptyString /\ lang float_regex w
    /\ all_space sp = true /\ sp <> EmptyString
    /\ isspace c = false /\ lang (Seq unit_pattern Dollar) (String c rest).
Proof.
  intros (sg & body & t & -> & Hsg & Hbody & Ht)%float_pattern_lang.
  destruct Ht as (sp & ud & -> & Hsp & Hud).
  pose proof Hud as (u & d & -> & Hu & Hd).
  apply lang_unit_pattern in Hu as (c & r & -> & Hc).
  apply lang_spaces in Hsp as (Hsp & sc & sr & -> & Hsc).
  rewrite sapp_cons in Hbody.
  destruct (float_body_before_space body sc _ Hsc Hbody) as [Hne Hbody'].
  exists (sg ++ body)%string, (String sc sr), c, (r ++ d)%string.
  rewrite !sapp_assoc, !sapp_cons. split; [reflexivity|].
  split; [|split; [|split; [|split; [|split; [|split]]]]].
  - rewrite no_space_sapp, (lang_no_space _ _ sign_no_space Hsg).
    now rewrite (float_body_no_space _ _ Hbody).
  - intros Hempty. apply sapp_empty in Hempty as [_ Hempty]. now apply Hne.
  - apply float_pattern_lang. exists sg, body, EmptyString.
    rewrite sapp_nil_r. split; [reflexivity|]. split; [assumption|].
    split; [assumption|]. now left.
  - exact Hsp.
  - discriminate.
  - exact Hc.
  - rewrite <- sapp_cons. exact Hud.
Qed.

End PatternFacts.

Section PatternTheorems.
Context `{FL : FloatLib} `{US : UnitSystem}.
Import Re ReFacts PatternFacts PyStr PyStrFacts.

(** X20. The first characters given to [add_implicit_resolver] leave out
    no match: every text that [float_regex] or [quantity_regex] matches
    starts with one of [-+0123456789.nNiI]. *)
Theorem resolver_first_covers (s : string) :
  matches float_regex s = true \/ matches quantity_regex s = true ->
  starts_with_one_of resolver_first s = true.
Proof.
  intros [Hm|Hm]; apply matches_lang in Hm;
    exact (float_pattern_first _ _ Hm).
Qed.

(** X21. The two implicit resolvers never compete: no text is matched by
    both [float_regex] and [quantity_regex]. *)
Theorem resolvers_disjoint (s : string) :
  matches float_regex s = true -> matches quantity_regex s = false.
Proof.
  intros Hf. apply not_true_is_false. intros Hq.
  apply matches_lang in Hf. apply matches_lang in Hq.
  apply float_regex_word in Hf as (w & d & -> & Hw & Hd).
  apply quantity_regex_parts in Hq
    as (w' & sp & c & rest & Hs & Hw' & Hne & _ & Hsp & Hsp0 & Hc & _).
  pose proof (split_two EmptyString w' sp c rest eq_refl Hw' Hne Hsp Hsp0 Hc)
    as Hsplit.
  rewrite sapp_nil_l, <- Hs in Hsplit.
  destruct (split_word_then_space w d Hw Hd) as [Hnone|Hone];
    rewrite Hsplit in *; discriminate.
Qed.

(** X22. A text that [quantity_regex] matches is one [quantity_from_str]
    can take apart: [split] gives two items, a number that [float_regex]
    matches and a unit text that [unit_pattern] matches, so the unpacking
    never raises, and what is left to fail is [float] and the unit
    system. *)
Theorem quantity_regex_splits (text : string) :
  matches quantity_regex text = true ->
  exists value_str unit,
    split_None_1 text = [value_str; unit]
    /\ matches float_regex value_str = true
    /\ matches (Seq unit_pattern Dollar) unit = true
    /\ quantity_from_str text
       = (value ← float value_str;
          if String.eqb (strip unit) "log_lsun" then
            Quantity_of
              (float_pow (Finite 10) (float_add value (np_log10 L_sun_cgs)))
              "erg/s"
          else Quantity_of value unit).
Proof.
  intros Hq. apply matches_lang in Hq.
  apply quantity_regex_parts in Hq
    as (w & sp & c & rest & -> & Hw & Hne & Hf & Hsp & Hsp0 & Hc & Hu).
  pose proof (split_two EmptyString w sp c rest eq_refl Hw Hne Hsp Hsp0 Hc)
    as Hsplit.
  rewrite sapp_nil_l in Hsplit.
  exists w, (String c rest). split; [exact Hsplit|].
  split; [now apply matches_lang|]. split; [now apply matches_lang|].
  unfold quantity_from_str. now rewrite Hsplit.
Qed.

End PatternTheorems.

(** ** Trees of matching shape *)

Section CoversFacts.
Context `{FL : FloatLib} `{US : UnitSystem}.
#[local] Arguments traverse_configs : simpl never.

Lemma covers_dict_cons k base_k (d : list (string * config)) other :
  covers (PyDict ((k, base_k) :: d)) other
  <-> (exists other_k, getitem other k = Ok other_k /\ covers base_k other_k)
      /\ covers (PyDict d) other.
Proof. reflexivity. Qed.

Lemma covers_list_iter (l : list config) other :
  covers (PyList l) other
  <-> exists zipped, iter other = Ok zipped /\ covers (PyList l) (PyList zipped).
Proof.
  split.
  - intros (zipped & Hit & Hpairs). exists zipped. split; [assumption|].
    exists zipped. split; [reflexivity|assumption].
  - intros (zipped & Hit & (zipped' & [= <-] & Hpairs)). now exists zipped.
Qed.

Lemma covers_list_cons val1 (l1 : list config) val2 l2 :
  covers (PyList (val1 :: l1)) (PyList (val2 :: l2))
  <-> covers val1 val2 /\ covers (PyList l1) (PyList l2).
Proof.
  split.
  - intros (zipped & [= <-] & Hv & Hpairs). split; [assumption|].
    exists l2. split; [reflexivity|assumption].
  - intros (Hv & (zipped & [= <-] & Hpairs)).
    exists (val2 :: l2). split; [reflexivity|]. split; assumption.
Qed.

(** A walk over a tree that answers it raises nothing but the
    [AssertionError] of a comparison. *)
Lemma traverse_covered (base : config) : forall other e,
  covers base other ->
  traverse_configs base other assert_equality = Raise e ->
  e = AssertionError.
Proof.
  induction base as [x|l IH|d IH] using config_induction; intros other e.
  - intros _. rewrite traverse_leaf. apply assert_equality_raises.
  - intros (zipped & Hit & Hcov)%covers_list_iter.
    rewrite (traverse_list_iter _ _ _ _ Hit). clear Hit.
    revert zipped Hcov. induction IH as [|val1 l Hval1 _ IHl]; intros zipped Hcov.
    + rewrite traverse_list_nil_l. discriminate.
    + destruct zipped as [|val2 zipped];
        [rewrite traverse_list_nil_r; discriminate|].
      apply covers_list_cons in Hcov as [Hv Hl].
      rewrite traverse_list_cons.
      destruct (traverse_configs val1 val2 assert_equality) as [[]|e'] eqn:Ht;
        simpl.
      * now apply IHl.
      * intros [= <-]. eapply Hval1; eauto.
  - induction IH as [|[k base_k] d Hk _ IHd].
    + rewrite traverse_dict_nil. discriminate.
    + intros [(other_k & Hget & Hv) Hd]%covers_dict_cons.
      rewrite traverse_dict_cons, Hget. simpl.
      destruct (traverse_configs base_k other_k assert_equality) as [[]|e'] eqn:Ht;
        simpl.
      * now apply IHd.
      * intros [= <-]. simpl in Hk. eapply Hk; eauto.
Qed.

(** X23. When the second tree has what the walk of the first asks of it (a
    value under every key of its mappings, something to iterate where it
    has a list), [check_equality] returns a boolean: it raises only where
    the shapes of the two trees differ. *)
Theorem check_equality_covered (a b : config) :
  covers a b -> exists r : bool, check_equality a b = Ok r.
Proof.
  intros Hcov. unfold check_equality.
  destruct (traverse_configs a b assert_equality) as [[]|e] eqn:Ht; [eauto|].
  rewrite (traverse_covered a b e Hcov Ht). eauto.
Qed.

End CoversFacts.

(** ** Lists of different lengths *)

Section ZipFacts.
Context `{FL : FloatLib} `{US : UnitSystem}.
#[local] Arguments traverse_configs : simpl never.
Implicit Types (func : leaf -> config -> result ()).

(** A walk that raises nothing has found what it asked for. *)
Lemma traverse_covers func (base : config) : forall other,
  traverse_configs base other func = Ok () -> covers base other.
Proof.
  induction base as [x|l IH|d IH] using config_induction; intros other.
  - intros _. exact I.
  - destruct (iter other) as [zipped|e] eqn:Hit.
    + rewrite (traverse_list_iter _ _ _ _ Hit). intros Hok.
      apply covers_list_iter. exists zipped. split; [exact Hit|].
      clear Hit. revert zipped Hok.
      induction IH as [|val1 l Hval1 _ IHl]; intros zipped Hok.
      * exists zipped. split; [reflexivity|exact I].
      * destruct zipped as [|val2 zipped].
        -- exists []. split; [reflexivity|exact I].
        -- rewrite traverse_list_cons in Hok.
           destruct (traverse_configs val1 val2 func) as [[]|] eqn:Hv;
             simpl in Hok; [|discriminate].
           apply covers_list_cons. split; [now apply Hval1|now apply IHl].
    + rewrite (traverse_list_raise _ _ _ _ Hit). discriminate.
  - induction IH as [|[k base_k] d Hk _ IHd]; intros Hok; [exact I|].
    rewrite traverse_dict_cons in Hok.
    destruct (getitem other k) as [other_k|] eqn:Hget; simpl in Hok;
      [|discriminate].
    destruct (traverse_configs base_k other_k func) as [[]|] eqn:Hv;
      simpl in Hok; [|discriminate].
    apply covers_dict_cons. split; [|now apply IHd].
    exists other_k. split; [exact Hget|]. simpl in Hk. now apply Hk.
Qed.

(** The walk raises nothing exactly when the second tree has what the walk
    asks of it and the function accepts every pair the walk reaches. *)
Lemma traverse_Ok_iff func (base : config) : forall other,
  traverse_configs base other func = Ok ()
  <-> covers base other
      /\ forall x y, corresponds base other x y -> func x y = Ok ().
Proof.
  intros other. split.
  - intros Hok. split; [now apply (traverse_covers func)|].
    intros x y Hcorr. now apply (traverse_corresponds _ _ _ _ _ Hcorr).
  - revert other.
    induction base as [x|l IH|d IH] using config_induction;
      intros other [Hcov Hall].
    + rewrite traverse_leaf. apply Hall. constructor.
    + apply covers_list_iter in Hcov as (zipped & Hit & Hcov).
      rewrite (traverse_list_iter _ _ _ _ Hit).
      assert (Hnth : forall i val1 val2 x y,
                 nth_error l i = Some val1 -> nth_error zipped i = Some val2 ->
                 corresponds val1 val2 x y -> func x y = Ok ()).
      { intros i val1 val2 x y H1 H2 Hcorr. apply Hall.
        now apply (corresponds_list l zipped other i val1 val2). }
      clear Hall Hit. revert zipped Hcov Hnth.
      induction IH as [|val1 l Hval1 _ IHl]; intros zipped Hcov Hnth.
      * apply traverse_list_nil_l.
      * destruct zipped as [|val2 zipped]; [apply traverse_list_nil_r|].
        apply covers_list_cons in Hcov as [Hv Hl].
        rewrite traverse_list_cons, Hval1.
        -- apply IHl; [exact Hl|].
           intros i v1 v2 x y H1 H2. now apply (Hnth (S i)).
        -- split; [exact Hv|]. intros x y. now apply (Hnth 0%nat).
    + assert (Hin : forall k base_k other_k x y,
                 In (k, base_k) d -> getitem other k = Ok other_k ->
                 corresponds base_k other_k x y -> func x y = Ok ()).
      { intros k base_k other_k x y Hk Hget Hcorr. apply Hall.
        now apply (corresponds_dict d other k base_k other_k). }
      clear Hall. revert Hcov Hin.
      induction IH as [|[k base_k] d Hk _ IHd]; intros Hcov Hin.
      * apply traverse_dict_nil.
      * apply covers_dict_cons in Hcov as [(other_k & Hget & Hv) Hd].
        rewrite traverse_dict_cons, Hget. simpl. simpl in Hk. rewrite Hk.
        -- apply IHd; [exact Hd|].
           intros k' b' o' x y Hk'. apply Hin. now right.
        -- split; [exact Hv|]. intros x y.
           apply (Hin k base_k other_k); [now left|exact Hget].
Qed.

Lemma check_equality_leaf_true (x : leaf) (y : config) :
  check_equality (Leaf x) y = Ok true <-> assert_equality x y = Ok ().
Proof.
  split.
  - intros Htrue. apply check_equality_true in Htrue.
    now rewrite traverse_leaf in Htrue.
  - intros Hok. apply check_equality_traverse_Ok. now rewrite traverse_leaf.
Qed.

(** The pairs the walk of two lists reaches are those of the items at one
    position in both. *)
Lemma corresponds_lists (l1 l2 : list config) (x : leaf) (y : config) :
  corresponds (PyList l1) (PyList l2) x y
  <-> exists i val1 val2,
        i < Nat.min (length l1) (length l2)
        /\ nth_error l1 i = Some val1 /\ nth_error l2 i = Some val2
        /\ corresponds val1 val2 x y.
Proof.
  split.
  - intros Hcorr. inversion Hcorr as [| |l zipped other i val1 val2 x' y'
                                        Hit H1 H2 Hv]; subst.
    inversion Hit; subst zipped.
    exists i, val1, val2. split; [|auto].
    assert (i < length l1) by (apply nth_error_Some; congruence).
    assert (i < length l2) by (apply nth_error_Some; congruence).
    lia.
  - intros (i & val1 & val2 & _ & H1 & H2 & Hv).
    now apply (corresponds_list l1 l2 (PyList l2) i val1 val2).
Qed.

(** C9. Two lists are compared item by item up to the length of the
    shorter one, and no further.  The comparison returns [True] exactly
    when every pair of items at one position in both lists compares
    [True]; the first pair that does not decides the result; the items
    beyond the shorter list are not looked at, so the result is that of
    comparing the two prefixes of that length, and items appended to
    either of two lists of one length change nothing.  The same holds for
    lists anywhere in the trees: a comparison returns [True] exactly when
    the second tree has what the walk asks of it and every pair of leaves
    the walk reaches compares [True], and the walk of two lists reaches
    the items at the positions below both lengths only. *)
Theorem zip_stops_at_shorter (l1 l2 extra : list config) :
  (check_equality (PyList l1) (PyList l2) = Ok true
   <-> Forall (fun p => check_equality (fst p) (snd p) = Ok true)
              (combine l1 l2))
  /\ (forall pre1 val1 post1 pre2 val2 post2,
        l1 = pre1 ++ val1 :: post1 -> l2 = pre2 ++ val2 :: post2 ->
        length pre1 = length pre2 ->
        Forall (fun p => check_equality (fst p) (snd p) = Ok true)
               (combine pre1 pre2) ->
        check_equality val1 val2 <> Ok true ->
        check_equality (PyList l1) (PyList l2) = check_equality val1 val2)
  /\ check_equality (PyList l1) (PyList l2)
     = check_equality
         (PyList (firstn (Nat.min (length l1) (length l2)) l1))
         (PyList (firstn (Nat.min (length l1) (length l2)) l2))
  /\ (length l1 = length l2 ->
      check_equality (PyList (l1 ++ extra)) (PyList l2)
      = check_equality (PyList l1) (PyList l2)
      /\ check_equality (PyList l1) (PyList (l2 ++ extra))
         = check_equality (PyList l1) (PyList l2))
  /\ (forall a b : config,
        check_equality a b = Ok true
        <-> covers a b
            /\ forall x y, corresponds a b x y ->
                           check_equality (Leaf x) y = Ok true)
  /\ (forall x y,
        corresponds (PyList l1) (PyList l2) x y
        <-> exists i val1 val2,
              i < Nat.min (length l1) (length l2)
              /\ nth_error l1 i = Some val1 /\ nth_error l2 i = Some val2
              /\ corresponds val1 val2 x y).
Proof.
  split; [|split; [|split; [|split; [|split]]]].
  - split.
    + intros Htrue. apply check_equality_true in Htrue.
      now apply traverse_list_combine.
    + intros Hall. apply check_equality_traverse_Ok.
      now apply traverse_list_combine.
  - intros pre1 val1 post1 pre2 val2 post2 -> -> Hlen Hpre Hnot.
    destruct (check_equality_not_true _ _ Hnot) as [e He].
    apply (check_equality_after _ _ _ _ e He).
    rewrite (traverse_list_app _ _ _ _ _ Hlen).
    rewrite (traverse_list_Forall pre1 pre2).
    + rewrite traverse_list_cons, He. reflexivity.
    + eapply Forall_impl; [exact Hpre|].
      intros p Hp. now apply check_equality_true.
  - unfold check_equality. now rewrite traverse_list_firstn.
  - intros Hlen. unfold check_equality.
    now rewrite traverse_list_app_l, traverse_list_app_r.
  - intros a b. split.
    + intros Htrue. apply check_equality_true in Htrue.
      apply traverse_Ok_iff in Htrue as [Hcov Hall]. split; [exact Hcov|].
      intros x y Hcorr. apply check_equality_leaf_true. now apply Hall.
    + intros [Hcov Hall]. apply check_equality_traverse_Ok.
      apply traverse_Ok_iff. split; [exact Hcov|].
      intros x y Hcorr. apply check_equality_leaf_true. now apply Hall.
  - apply corresponds_lists.
Qed.

End ZipFacts.

(** ** The trees the loader builds *)

Section NodeInduction.
Variable P : node -> Prop.
Hypothesis Hscalar : forall tag text, P (ScalarNode tag text).
Hypothesis Hsequence : forall items, Forall P items -> P (SequenceNode items).
Hypothesis Hmapping :
  forall pairs, Forall (fun kv => P (snd kv)) pairs -> P (MappingNode pairs).

(** Induction on a node, with the property known for every item of a
    sequence and every value of a mapping. *)
Fixpoint node_induction (n : node) : P n :=
  match n with
  | ScalarNode tag text => Hscalar tag text
  | SequenceNode items =>
      Hsequence items
        ((fix all (l : list node) : Forall P l :=
            match l with
            | [] => List.Forall_nil P
            | n' :: l' => @List.Forall_cons _ P n' l' (node_induction n') (all l')
            end) items)
  | MappingNode pairs =>
      Hmapping pairs
        ((fix all (l : list (string * node)) : Forall (fun kv => P (snd kv)) l :=
            match l with
            | [] => List.Forall_nil _
            | (k, n') :: l' =>
                @List.Forall_cons _ (fun kv => P (snd kv)) (k, n') l'
                  (node_induction n') (all l')
            end) pairs)
  end.

End NodeInduction.

Module OrderedDictUnique.
Import OrderedDict OrderedDictFacts.

Lemma first_occurrences_not_seen (l : list string) : forall seen k,
  In k (first_occurrences seen l) -> existsb (String.eqb k) seen = false.
Proof.
  induction l as [|k0 l IH]; intros seen k; simpl; [intros []|].
  destruct (existsb (String.eqb k0) seen) eqn:Hseen.
  - apply IH.
  - intros [<-|Hin]; [assumption|].
    apply IH in Hin. simpl in Hin. now apply orb_false_iff in Hin as [_ Hin].
Qed.

Lemma first_occurrences_distinct (l : list string) : forall seen,
  distinct (first_occurrences seen l) = true.
Proof.
  induction l as [|k0 l IH]; intros seen; simpl; [reflexivity|].
  destruct (existsb (String.eqb k0) seen) eqn:Hseen; [apply IH|].
  simpl. rewrite IH, andb_true_r. apply negb_true_iff.
  apply not_true_is_false. intros Hex.
  apply existsb_exists in Hex as (k & Hin & Hk).
  apply String.eqb_eq in Hk. subst k.
  apply first_occurrences_not_seen in Hin. simpl in Hin.
  now rewrite String.eqb_refl in Hin.
Qed.

Section Values.
Context {V : Type}.

Lemma set_In (d : list (string * V)) k v kv :
  In kv (set d k v) -> In kv d \/ kv = (k, v).
Proof.
  induction d as [|[k0 v0] d IH]; simpl.
  - intros [<-|[]]. now right.
  - destruct (String.eqb k0 k) eqn:Hk.
    + apply String.eqb_eq in Hk. subst k0.
      intros [<-|Hin]; [now right|left; now right].
    + intros [<-|Hin]; [left; now left|].
      destruct (IH Hin) as [?|?]; [left; now right|now right].
Qed.

(** Every item of [OrderedDict(pairs)] is one of the pairs. *)
Lemma of_pairs_In (pairs : list (string * V)) kv :
  In kv (of_pairs pairs) -> In kv pairs.
Proof.
  unfold of_pairs.
  assert (Hgen : forall d,
             In kv (fold_left (fun d kv => set d (fst kv) (snd kv)) pairs d) ->
             In kv d \/ In kv pairs).
  { induction pairs as [|[k v] pairs IH]; intros d; simpl; [auto|].
    intros Hin. destruct (IH _ Hin) as [Hset|?]; [|auto].
    destruct (set_In _ _ _ _ Hset) as [? | ->]; auto. }
  intros Hin. destruct (Hgen [] Hin) as [[]|?]. assumption.
Qed.

Lemma of_pairs_distinct (pairs : list (string * V)) :
  distinct (map fst (of_pairs pairs)) = true.
Proof.
  change (map fst (of_pairs pairs)) with (keys (of_pairs pairs)).
  rewrite keys_of_pairs. apply first_occurrences_distinct.
Qed.

End Values.
End OrderedDictUnique.

Section LoadedTrees.
Context `{FL : FloatLib} `{YL : YamlLib}.
Import OrderedDict OrderedDictUnique YAMLLoader.
#[local] Arguments traverse_configs : simpl never.

Lemma Forall2_In_r {A B : Type} (R : A -> B -> Prop) (l : list A) (l' : list B)
    (y : B) :
  Forall2 R l l' -> In y l' -> exists x, In x l /\ R x y.
Proof.
  induction 1 as [|x y' l l' Hxy _ IH]; intros Hin; [destruct Hin|].
  destruct Hin as [<-|Hin].
  - exists x. split; [now left|assumption].
  - destruct (IH Hin) as (x' & Hx' & HR). exists x'. split; [now right|assumption].
Qed.

(** X24. Every tree the loader builds has each key once in each of its
    mappings, whatever the document repeats. *)
Theorem loaded_tree_unique_keys (n : node) (tree : config) :
  construct_object n = Ok tree -> unique_keys tree = true.
Proof.
  revert tree.
  induction n as [tag text|items IH|pairs IH] using node_induction; intros tree.
  - simpl. destruct (String.eqb tag "!quantity").
    + destruct (construct_quantity text); simpl; [|discriminate].
      now intros [= <-].
    + destruct (construct_yaml_scalar tag text); simpl; [|discriminate].
      now intros [= <-].
  - change (construct_object (SequenceNode items))
      with (l ← mapM construct_object items; mret (PyList l)).
    destruct (mapM construct_object items) as [l|e] eqn:Hl; simpl;
      [|discriminate].
    intros [= <-]. simpl. apply forallb_forall. intros v Hv.
    apply mapM_Ok_Forall2 in Hl.
    destruct (Forall2_In_r _ _ _ _ Hl Hv) as (n' & Hn' & Hload).
    rewrite List.Forall_forall in IH. exact (IH n' Hn' v Hload).
  - change (construct_object (MappingNode pairs))
      with (mapping_constructor construct_object pairs).
    unfold mapping_constructor, construct_pairs.
    destruct (mapM (fun kv => v ← construct_object (snd kv); mret (fst kv, v))
                   pairs) as [loaded|e] eqn:Hl; simpl; [|discriminate].
    intros [= <-]. simpl. rewrite of_pairs_distinct. simpl.
    apply forallb_forall. intros [k v] Hkv. simpl.
    apply of_pairs_In in Hkv. apply mapM_Ok_Forall2 in Hl.
    destruct (Forall2_In_r _ _ _ _ Hl Hkv) as ([k' n'] & Hn' & Hload).
    simpl in Hload.
    destruct (construct_object n') as [v'|] eqn:Hv'; simpl in Hload;
      [|discriminate].
    inversion Hload; subst k' v'.
    rewrite List.Forall_forall in IH. exact (IH (k, n') Hn' v Hv').
Qed.

(** X25. A loaded tree compares equal to itself unless it holds a NaN: the
    loader gives the comparator trees it finds equal to themselves, a unit
    being equal to itself. *)
Theorem loaded_tree_equals_itself (n : node) (tree : config) :
  (forall u, unit_eqb u u = true) ->
  construct_object n = Ok tree ->
  nan_free tree = true ->
  check_equality tree tree = Ok true.
Proof.
  intros Hrefl Hload Hnan. apply check_equality_traverse_Ok.
  apply traverse_self; [assumption..|]. now apply (loaded_tree_unique_keys n).
Qed.

End LoadedTrees.

(** ** Calls of the HDF writer one after the other *)

Section HdfCalls.
Context `{US : UnitSystem} `{PL : PandasLib} `{HL : !HdfLib}.

Lemma to_hdf_loop_all_scalars path (items : list (string * element)) :
  (forall key value, In (key, value) items -> isscalar value = true) ->
  forall scalars f,
    to_hdf_loop path items scalars f = (f, Ok (buffered items scalars)).
Proof.
  induction items as [|[key value] items IH]; intros Hall scalars f;
    [reflexivity|].
  cbn [to_hdf_loop]. unfold io_bind. rewrite buffered_cons.
  destruct (to_hdf_item_scalar path scalars key value f
              (Hall key value (or_introl eq_refl))) as [x [Hx ->]].
  rewrite Hx. apply IH. intros k v Hin. apply (Hall k v). now right.
Qed.

Lemma buffered_not_empty (items : list (string * element)) (f : hdf) :
  items <> [] ->
  (forall key value, In (key, value) items -> isscalar value = true) ->
  buffered items ∅ ≠ ∅.
Proof.
  intros Hne Hall. destruct items as [|[key value] items]; [congruence|].
  intros Hempty.
  pose proof (to_hdf_loop_all_scalars "" _ Hall ∅ f) as Hloop.
  apply (proj1 (is_empty_no_key _) Hempty key).
  apply (to_hdf_loop_scalars _ _ _ _ _ _ Hloop key).
  right. exists value. split; [now left|].
  apply (Hall key value). now left.
Qed.

(** X26. Scalars accumulate over calls: two calls of [to_hdf] on one path
    with scalars only, on a file that holds nothing under [path/scalars]
    and that the store opens, leave there the Series of the first call
    followed by the Series of the second, a name written by both calls
    standing in it twice; a record written under [path/scalars] being
    found and read back there as it was written. *)
Theorem to_hdf_twice (path : string)
    (first second : list (string * element)) (complevel : nat)
    (complib : string) (f : hdf) :
  first <> [] -> second <> [] ->
  (forall key value, In (key, value) first -> isscalar value = true) ->
  (forall key value, In (key, value) second -> isscalar value = true) ->
  hdf_opens complevel complib = true ->
  hdf_contains (os_path_join path "scalars") (contents f) = false ->
  (forall obj file,
      hdf_contains (os_path_join path "scalars")
        (hdf_put (os_path_join path "scalars") obj file) = true
      /\ hdf_getitem (os_path_join path "scalars")
           (hdf_put (os_path_join path "scalars") obj file) = Ok obj) ->
  to_hdf path second complevel complib
    (fst (to_hdf path first complevel complib f))
  = (mkHdf
       (hdf_put (os_path_join path "scalars")
          (Series (Series_of_dict (buffered first ∅)
                   ++ Series_of_dict (buffered second ∅)))
          (hdf_put (os_path_join path "scalars")
             (Series (Series_of_dict (buffered first ∅))) (contents f)))
       (trace f
        ++ [Open complevel complib; Contains (os_path_join path "scalars");
            Close; Put (os_path_join path "scalars")]
        ++ [Open complevel complib; Contains (os_path_join path "scalars");
            Getitem (os_path_join path "scalars"); Close;
            Put (os_path_join path "scalars")]),
     Ok ())
  /\ hdf_getitem (os_path_join path "scalars")
       (contents (fst (to_hdf path second complevel complib
                         (fst (to_hdf path first complevel complib f)))))
     = Ok (Series (Series_of_dict (buffered first ∅)
                   ++ Series_of_dict (buffered second ∅))).
Proof.
  intros Hne1 Hne2 Hall1 Hall2 Hopens Hnone Hstore.
  assert (Hrun : to_hdf path second complevel complib
                   (fst (to_hdf path first complevel complib f))
                 = (mkHdf
                      (hdf_put (os_path_join path "scalars")
                         (Series (Series_of_dict (buffered first ∅)
                                  ++ Series_of_dict (buffered second ∅)))
                         (hdf_put (os_path_join path "scalars")
                            (Series (Series_of_dict (buffered first ∅)))
                            (contents f)))
                      (trace f
                       ++ [Open complevel complib;
                           Contains (os_path_join path "scalars");
                           Close; Put (os_path_join path "scalars")]
                       ++ [Open complevel complib;
                           Contains (os_path_join path "scalars");
                           Getitem (os_path_join path "scalars"); Close;
                           Put (os_path_join path "scalars")]),
                    Ok ())).
  { unfold to_hdf, io_bind.
    rewrite (to_hdf_loop_all_scalars path first Hall1).
    rewrite bool_decide_eq_true_2 by now apply buffered_not_empty.
    rewrite to_hdf_scalars_run, Hopens, Hnone. cbn [fst].
    rewrite (to_hdf_loop_all_scalars path second Hall2).
    rewrite bool_decide_eq_true_2 by now apply buffered_not_empty.
    rewrite to_hdf_scalars_run, Hopens. cbn [contents trace].
    rewrite (proj1 (Hstore _ _)), (proj2 (Hstore _ _)).
    now rewrite <- app_assoc. }
  split; [exact Hrun|]. rewrite Hrun. cbn [fst contents].
  apply Hstore.
Qed.

End HdfCalls.

(** * The statements at concrete inputs *)

Import Reference.

(** ** The files of the small implementation *)

Lemma files_getitem_put (key : string) (obj : pdobj) (file : hdf_file) :
  hdf_getitem key (hdf_put key obj file) = Ok obj.
Proof.
  unfold hdf_getitem, hdf_put. simpl. now rewrite lookup_insert_eq.
Qed.

Lemma files_contains_put (key : string) (obj : pdobj) (file : hdf_file) :
  hdf_contains key (hdf_put key obj file) = true.
Proof.
  unfold hdf_contains, hdf_put. simpl. rewrite lookup_insert_eq.
  apply bool_decide_eq_true_2. eauto.
Qed.

Lemma files_getitem_put_other (key key' : string) (obj : pdobj)
    (file : hdf_file) :
  node_of key' <> node_of key ->
  hdf_getitem key (hdf_put key' obj file) = hdf_getitem key file.
Proof.
  intros Hne. unfold hdf_getitem, hdf_put. simpl.
  now rewrite lookup_insert_ne.
Qed.

(** ** The quantity parser *)

Lemma quantity_from_str_log_lsun_witness :
  Unit (UnitSystem := units) "erg/s" = Some "erg/s"
  /\ quantity_from_str " 3  log_lsun "
     = Ok (mkQuantity (US := units)
             (float_pow (Finite 10) (float_add (Finite 3) (np_log10 L_sun_cgs)))
             "erg/s")
  /\ quantity_from_str "2.0 erg/s" = Ok (mkQuantity (US := units) (Finite 2) "erg/s").
Proof.
  destruct (quantity_from_str_log_lsun (US := units) "erg/s" eq_refl) as [Hgen [_ H2]].
  split; [reflexivity|split].
  - apply (Hgen " " "3" "  " " " (Finite 3));
      first [reflexivity | discriminate].
  - apply H2. reflexivity.
Defined.

Lemma quantity_from_str_no_separator_witness :
  PyStr.no_space "5" = true /\ quantity_from_str "5" = Raise ValueError.
Proof.
  split; [reflexivity|].
  apply (quantity_from_str_no_separator "5"). reflexivity.
Defined.

(** ** The loader *)

Lemma mapping_constructor_keeps_order_witness :
  exists d : list (string * config),
    YAMLLoader.construct_object (MappingNode cab_pairs) = Ok (PyDict d)
    /\ OrderedDict.keys d = ["c"; "a"; "b"].
Proof.
  destruct (mapping_constructor_keeps_order cab_pairs) as [Hkeys _].
  destruct (Hkeys
              (PyDict
                 [("c", Leaf (LStr "x"));
                  ("a", PyList [Leaf (LFloat (Finite (1 # 2)))]);
                  ("b", Leaf (LQuantity (mkQuantity (US := units) (Finite 2) "erg/s")))])
              eq_refl) as [d [Hd [Hk _]]].
  exists d. split; [now rewrite <- Hd|exact Hk].
Defined.

(** ** The comparator *)

(** C1 fails as stated: a key of the first tree that the second lacks
    raises [KeyError] out of [check_equality]; no boolean is returned. *)
Lemma check_equality_missing_key_raises :
  check_equality (PyDict [("a", Leaf (LInt 1))]) (PyDict [])
  = Raise (KeyError "a")
  /\ ~ (exists r : bool,
          check_equality (PyDict [("a", Leaf (LInt 1))]) (PyDict []) = Ok r).
Proof.
  split; [reflexivity|]. intros [r Hr]. discriminate Hr.
Qed.

Lemma check_equality_absorbs_assertions_witness :
  check_equality (Leaf (LInt 1)) (Leaf (LStr "1")) = Ok false
  /\ check_equality (PyDict [("a", Leaf (LInt 1)); ("b", Leaf LNone)])
                    (PyDict [("a", Leaf (LInt 1))])
     = Raise (KeyError "b")
  /\ check_equality (PyDict [("a", Leaf (LInt 1)); ("b", Leaf (LInt 2))])
                    (PyDict [("a", Leaf (LInt 2))])
     = Ok false
  /\ check_equality (PyDict [("n", PyDict [("a", Leaf (LInt 1))])])
                    (PyDict [("n", PyDict [])])
     = Raise (KeyError "a")
  /\ check_equality (PyDict [("a", Leaf (LInt 1))]) (PyList [])
     = Raise TypeError
  /\ check_equality (PyList []) (Leaf (LInt 1)) = Raise TypeError.
Proof.
  split; [|split; [|split; [|split; [|split]]]].
  - apply (check_equality_absorbs_assertions
             (Leaf (LInt 1)) (Leaf (LStr "1"))). reflexivity.
  - destruct (check_equality_absorbs_assertions
                (PyDict [("a", Leaf (LInt 1)); ("b", Leaf LNone)])
                (PyDict [("a", Leaf (LInt 1))]))
      as (_ & _ & _ & _ & Hdict & _).
    destruct (Hdict [("a", Leaf (LInt 1))] "b" (Leaf LNone) [] eq_refl)
      as (Hkey & _).
    + constructor; [|constructor].
      exists (Leaf (LInt 1)). split; reflexivity.
    + apply (Hkey [("a", Leaf (LInt 1))]); reflexivity.
  - destruct (check_equality_absorbs_assertions
                (PyDict [("a", Leaf (LInt 1)); ("b", Leaf (LInt 2))])
                (PyDict [("a", Leaf (LInt 2))]))
      as (_ & _ & _ & _ & Hdict & _).
    destruct (Hdict [] "a" (Leaf (LInt 1)) [("b", Leaf (LInt 2))] eq_refl)
      as (_ & _ & Hpair); [constructor|].
    rewrite (Hpair (Leaf (LInt 2))); [vm_compute; reflexivity|reflexivity|].
    vm_compute. discriminate.
  - destruct (check_equality_absorbs_assertions
                (PyDict [("n", PyDict [("a", Leaf (LInt 1))])])
                (PyDict [("n", PyDict [])]))
      as (_ & _ & _ & _ & Hdict & _).
    destruct (Hdict [] "n" (PyDict [("a", Leaf (LInt 1))]) [] eq_refl)
      as (_ & _ & Hpair); [constructor|].
    rewrite (Hpair (PyDict [])); [reflexivity|reflexivity|discriminate].
  - destruct (check_equality_absorbs_assertions
                (PyDict [("a", Leaf (LInt 1))]) (PyList []))
      as (_ & _ & _ & _ & Hdict & _).
    destruct (Hdict [] "a" (Leaf (LInt 1)) [] eq_refl) as (_ & Htype & _);
      [constructor|].
    apply Htype. discriminate.
  - destruct (check_equality_absorbs_assertions (PyList []) (Leaf (LInt 1)))
      as (_ & _ & _ & _ & _ & Hlist).
    destruct (Hlist [] eq_refl) as (Htype & _).
    apply (Htype (LInt 1)); [reflexivity|discriminate].
Defined.



(** C5 fails as stated: a tree with a NaN leaf does not compare equal to
    itself. *)
Lemma nan_tree_not_equal_to_itself :
  check_equality (PyDict [("x", PyList [Leaf (LFloat NaN)])])
                 (PyDict [("x", PyList [Leaf (LFloat NaN)])]) = Ok false.
Proof. reflexivity. Qed.

Lemma check_equality_reflexive_witness :
  nan_free sample_tree = true /\ unique_keys sample_tree = true
  /\ check_equality sample_tree sample_tree = Ok true.
Proof.
  split; [reflexivity|split; [reflexivity|]].
  apply (check_equality_reflexive sample_tree);
    [exact String.eqb_refl|reflexivity..].
Defined.

Lemma unit_mismatch_not_equal_witness :
  unit_eqb (UnitSystem := units) "erg/s" "erg" = false
  /\ check_equality (Leaf (LQuantity (mkQuantity (US := units) (Finite 1) "erg/s")))
                    (Leaf (LQuantity (mkQuantity (US := units) (Finite 1) "erg")))
     = Ok false.
Proof.
  split; [reflexivity|].
  apply (unit_mismatch_not_equal (mkQuantity (US := units) (Finite 1) "erg/s")
                                 (mkQuantity (US := units) (Finite 1) "erg")).
  reflexivity.
Defined.

Lemma zip_stops_at_shorter_witness :
  check_equality (PyList [Leaf (LInt 1); Leaf (LInt 2)])
                 (PyList [Leaf (LInt 1)]) = Ok true
  /\ check_equality (PyList [Leaf (LInt 1); Leaf (LInt 2); Leaf (LInt 3)])
                    (PyList [Leaf (LInt 1); Leaf (LInt 5)]) = Ok false
  /\ check_equality (PyList ([Leaf (LInt 1)] ++ [Leaf (LInt 2)]))
                    (PyList [Leaf (LInt 1)])
     = check_equality (PyList [Leaf (LInt 1)]) (PyList [Leaf (LInt 1)])
  /\ check_equality (PyList [Leaf (LInt 1)])
                    (PyList ([Leaf (LInt 1)] ++ [Leaf (LStr "x")]))
     = check_equality (PyList [Leaf (LInt 1)]) (PyList [Leaf (LInt 1)]).
Proof.
  split; [|split].
  - destruct (zip_stops_at_shorter
                [Leaf (LInt 1); Leaf (LInt 2)] [Leaf (LInt 1)] [])
      as (Hpairs & _).
    apply Hpairs. constructor; [vm_compute; reflexivity|constructor].
  - destruct (zip_stops_at_shorter
                [Leaf (LInt 1); Leaf (LInt 2); Leaf (LInt 3)]
                [Leaf (LInt 1); Leaf (LInt 5)] []) as (_ & Hfirst & _).
    rewrite (Hfirst [Leaf (LInt 1)] (Leaf (LInt 2)) [Leaf (LInt 3)]
               [Leaf (LInt 1)] (Leaf (LInt 5)) []);
      [vm_compute; reflexivity|reflexivity..| |].
    + constructor; [vm_compute; reflexivity|constructor].
    + vm_compute. discriminate.
  - destruct (zip_stops_at_shorter
                [Leaf (LInt 1)] [Leaf (LInt 1)] [Leaf (LInt 2)])
      as (_ & _ & _ & Hl & _).
    destruct (zip_stops_at_shorter
                [Leaf (LInt 1)] [Leaf (LInt 1)] [Leaf (LStr "x")])
      as (_ & _ & _ & Hr & _).
    split; [apply (Hl eq_refl)|apply (Hr eq_refl)].
Defined.

(** ** The HDF writer *)

Lemma to_hdf_without_scalars_witness :
  isscalar (EArray (mkArray [3%nat] [Finite 1; Finite 2; Finite 3])) = false
  /\ hdf_getitem "p/scalars"
       (contents
          (fst (to_hdf "p"
                  [("b", EArray (mkArray [3%nat] [Finite 1; Finite 2; Finite 3]))]
                  9 "blosc" stored_file)))
     = hdf_getitem "p/scalars" (contents stored_file).
Proof.
  split; [reflexivity|].
  destruct (to_hdf_without_scalars "p"
              [("b", EArray (mkArray [3%nat] [Finite 1; Finite 2; Finite 3]))]
              9 "blosc" stored_file) as (_ & _ & _ & Hkept).
  - intros key value [[= <- <-]|[]]. reflexivity.
  - apply Hkept. intros key value obj file [[= <- <-]|[]].
    apply files_getitem_put_other. discriminate.
Defined.

(** C10 fails as stated: an element named [scalars] that is no scalar is
    written under [path/scalars] by the loop and replaces the record
    there. *)
Lemma element_named_scalars_replaces_record :
  isscalar (EArray (mkArray [1%nat] [Finite 1])) = false
  /\ hdf_getitem "p/scalars" (contents stored_file)
     = Ok (Series [(Name "a", SFloat (Finite 5))])
  /\ snd (to_hdf "p" [("scalars", EArray (mkArray [1%nat] [Finite 1]))]
            9 "blosc" stored_file)
     = Ok ()
  /\ trace (fst (to_hdf "p" [("scalars", EArray (mkArray [1%nat] [Finite 1]))]
                   9 "blosc" stored_file))
     = [Put "p/scalars"]
  /\ hdf_getitem "p/scalars"
       (contents
          (fst (to_hdf "p" [("scalars", EArray (mkArray [1%nat] [Finite 1]))]
                  9 "blosc" stored_file)))
     = Ok (Series [(Pos 0, SFloat (Finite 1))]).
Proof. repeat split; vm_compute; reflexivity. Qed.

Lemma to_hdf_appends_scalars_witness :
  exists f2 : hdf,
    to_hdf "p" [("a", EScalar (SFloat (Finite 6)))] 9 "blosc" stored_file
    = (f2, Ok ())
    /\ hdf_getitem "p/scalars" (contents f2)
       = Ok (Series ([(Name "a", SFloat (Finite 5))]
                     ++ Series_of_dict {[ "a" := SFloat (Finite 6) ]})).
Proof.
  destruct (to_hdf_appends_scalars "p" [("a", EScalar (SFloat (Finite 6)))]
              9 "blosc" stored_file stored_file
              {[ "a" := SFloat (Finite 6) ]}
              [(Name "a", SFloat (Finite 5))])
    as (f2 & Hret & _ & _ & _ & Hrecord).
  - reflexivity.
  - exists "a", (EScalar (SFloat (Finite 6))). split; [now left|reflexivity].
  - reflexivity.
  - reflexivity.
  - reflexivity.
  - exists f2. split; [exact Hret|]. apply Hrecord.
    intros obj file. apply files_getitem_put.
Defined.

(** ** The definitions on small inputs *)

Example split_two_words :
  PyStr.split_None_1 "  1   log_lsun  " = ["1"; "log_lsun  "].
Proof. reflexivity. Qed.

Example split_trailing_whitespace : PyStr.split_None_1 "5 " = ["5"].
Proof. reflexivity. Qed.

Example split_blank : PyStr.split_None_1 "   " = [].
Proof. reflexivity. Qed.

Example quantity_without_number :
  quantity_from_str "five erg/s" = Raise ValueError.
Proof. reflexivity. Qed.

Example quantity_unknown_unit :
  quantity_from_str "5 parsnips" = Raise ValueError.
Proof. reflexivity. Qed.

Example join_relative : os_path_join "model" "scalars" = "model/scalars".
Proof. reflexivity. Qed.

Example join_trailing_slash : os_path_join "model/" "scalars" = "model/scalars".
Proof. reflexivity. Qed.

Example join_absolute : os_path_join "model" "/scalars" = "/scalars".
Proof. reflexivity. Qed.

Example repeated_key_keeps_first_place :
  YAMLLoader.construct_object
    (MappingNode
       [("c", ScalarNode "tag:yaml.org,2002:str" "x");
        ("a", ScalarNode "tag:yaml.org,2002:str" "y");
        ("c", ScalarNode "tag:yaml.org,2002:str" "z")])
  = Ok (PyDict [("c", Leaf (LStr "z")); ("a", Leaf (LStr "y"))]).
Proof. reflexivity. Qed.

(** Keys of the second tree that the first lacks are not looked at. *)
Example extra_key_ignored :
  check_equality (PyDict []) (PyDict [("a", Leaf (LInt 1))]) = Ok true.
Proof. reflexivity. Qed.

Example int_is_not_float :
  check_equality (Leaf (LInt 1)) (Leaf (LFloat (Finite 1))) = Ok false.
Proof. reflexivity. Qed.

Example list_against_number :
  check_equality (PyList []) (Leaf (LInt 1)) = Raise TypeError.
Proof. reflexivity. Qed.

Example far_numbers_differ :
  check_equality (Leaf (LFloat (Finite 1)))
                 (Leaf (LFloat (Finite (1001 # 1000)))) = Ok false.
Proof. vm_compute. reflexivity. Qed.

(** An integer of more than 64 bits is compared with [==]. *)
Example large_integers_compare_exactly :
  check_equality (Leaf (LInt (2 ^ 70))) (Leaf (LInt (2 ^ 70 + 1))) = Ok false
  /\ check_equality (Leaf (LInt (2 ^ 70))) (Leaf (LInt (2 ^ 70))) = Ok true
  /\ check_equality (Leaf (LInt (2 ^ 62))) (Leaf (LInt (2 ^ 62 + 1))) = Ok true.
Proof. vm_compute. repeat split. Qed.

(** A failed comparison met before a missing key gives [False]. *)
Example mismatch_before_missing_key :
  check_equality (PyDict [("a", Leaf (LInt 1)); ("b", Leaf (LInt 2))])
                 (PyDict [("a", Leaf (LInt 2))]) = Ok false.
Proof. vm_compute. reflexivity. Qed.

(** Two calls on one path: the scalar of the second call follows that of
    the first, and the table of the first call stays. *)
Example two_writes :
  let first :=
    fst (to_hdf "p"
           [("a", EScalar (SFloat (Finite 5)));
            ("b", EArray (mkArray [3%nat] [Finite 1; Finite 2; Finite 3]))]
           9 "blosc" (mkHdf ∅ [])) in
  let second :=
    fst (to_hdf "p" [("a", EScalar (SFloat (Finite 6)))] 9 "blosc" first) in
  hdf_getitem "p/scalars" (contents second)
  = Ok (Series [(Name "a", SFloat (Finite 5)); (Name "a", SFloat (Finite 6))])
  /\ hdf_getitem "/p/b" (contents second)
     = Ok (Series [(Pos 0, SFloat (Finite 1)); (Pos 1, SFloat (Finite 2));
                   (Pos 2, SFloat (Finite 3))])
  /\ trace second
     = [Put "p/b"; Open 9 "blosc"; Contains "p/scalars"; Close; Put "p/scalars";
        Open 9 "blosc"; Contains "p/scalars"; Getitem "p/scalars"; Close;
        Put "p/scalars"].
Proof. vm_compute. repeat split. Qed.

(** A compression library the store does not know: the elements are
    written, the scalars are not. *)
Example unknown_compression_library :
  let after :=
    to_hdf "p"
      [("b", EArray (mkArray [1%nat] [Finite 1]));
       ("a", EScalar (SFloat (Finite 6)))]
      9 "nope" stored_file in
  snd after = Raise ValueError
  /\ trace (fst after) = [Put "p/b"]
  /\ hdf_getitem "p/b" (contents (fst after))
     = Ok (Series [(Pos 0, SFloat (Finite 1))])
  /\ hdf_getitem "p/scalars" (contents (fst after))
     = Ok (Series [(Name "a", SFloat (Finite 5))]).
Proof. repeat split; vm_compute; reflexivity. Qed.

(** ** Further statements at concrete inputs *)

Import ReferenceElements.

Lemma check_equality_true_leaves_witness :
  exists y',
    Leaf (LFloat (Finite 1)) = Leaf y'
    /\ same_type (LFloat (Finite (1000001 # 1000000))) y' = true
    /\ leaf_close (LFloat (Finite (1000001 # 1000000))) y' = true.
Proof.
  destruct (check_equality_true_leaves
              (PyDict [("n", PyList [Leaf (LFloat (Finite (1000001 # 1000000)))])])
              (PyDict [("n", PyList [Leaf (LFloat (Finite 1))])])
              (LFloat (Finite (1000001 # 1000000))) (Leaf (LFloat (Finite 1))))
    as (y' & Hy & Htype & _ & Hclose & _).
  - reflexivity.
  - eapply corresponds_dict; [now left|reflexivity|].
    eapply (corresponds_list _ _ _ 0); [reflexivity..|].
    apply corresponds_leaf.
  - exists y'. auto.
Defined.

Lemma check_equality_other_keys_witness :
  check_equality (PyDict [("a", Leaf (LInt 1))]) (PyDict [("a", Leaf (LInt 1))])
  = check_equality (PyDict [("a", Leaf (LInt 1))])
                   (PyDict [("z", Leaf LNone); ("a", Leaf (LInt 1))]).
Proof.
  apply (check_equality_other_keys
           [("a", Leaf (LInt 1))] [("a", Leaf (LInt 1))]
           [("z", Leaf LNone); ("a", Leaf (LInt 1))]).
  intros k [<-|[]]. reflexivity.
Defined.

Lemma check_equality_type_mismatch_witness :
  check_equality (Leaf (LInt 1)) (Leaf (LFloat (Finite 1))) = Ok false.
Proof.
  apply (check_equality_type_mismatch (LInt 1) (Leaf (LFloat (Finite 1)))).
  intros y [= <-]. reflexivity.
Defined.

Lemma check_equality_covered_witness :
  exists r : bool,
    check_equality (PyDict [("a", PyList [Leaf (LInt 1)])])
                   (PyDict [("a", PyList [Leaf (LStr "x"); Leaf LNone])])
    = Ok r.
Proof.
  apply (check_equality_covered
           (PyDict [("a", PyList [Leaf (LInt 1)])])
           (PyDict [("a", PyList [Leaf (LStr "x"); Leaf LNone])])).
  simpl. split; [|exact I].
  eexists. split; [reflexivity|]. eexists. split; [reflexivity|].
  split; exact I.
Defined.

Lemma to_hdf_first_scalars_witness :
  to_hdf "p" [("a", EScalar (SFloat (Finite 6)))] 9 "blosc" (mkHdf ∅ [])
  = (mkHdf (hdf_put (os_path_join "p" "scalars")
              (Series (Series_of_dict {[ "a" := SFloat (Finite 6) ]})) ∅)
           ([] ++ [Open 9 "blosc"; Contains (os_path_join "p" "scalars"); Close;
                   Put (os_path_join "p" "scalars")]),
     Ok ()).
Proof.
  apply (to_hdf_first_scalars "p" [("a", EScalar (SFloat (Finite 6)))]
           9 "blosc" (mkHdf ∅ []) (mkHdf ∅ []) {[ "a" := SFloat (Finite 6) ]}).
  - reflexivity.
  - exists "a", (EScalar (SFloat (Finite 6))). split; [now left|reflexivity].
  - reflexivity.
  - reflexivity.
Defined.

Lemma to_hdf_loop_buffer_witness :
  (<[ "L" := SFloat (Finite 2) ]> {[ "a" := SInt 6 ]} : gmap string scalar)
    !! "L"
  = Some (SFloat (cgs_value (UnitSystem := units) "erg/s" (Finite 2))).
Proof.
  destruct (to_hdf_loop_buffer "p"
              [("a", EScalar (SInt 6));
               ("L", EQuantity (mkQuantity (US := units) (Finite 2) "erg/s"))]
              stored_file stored_file
              (<[ "L" := SFloat (Finite 2) ]> {[ "a" := SInt 6 ]}))
    as [_ Hquantity].
  - simpl. constructor.
    + intros Hin. apply list_elem_of_In in Hin.
      destruct Hin as [Heq|[]]. discriminate Heq.
    + constructor; [intros Hin; inversion Hin|constructor].
  - reflexivity.
  - apply (Hquantity "L" (mkQuantity (US := units) (Finite 2) "erg/s")).
    right. now left.
Defined.

Lemma quantity_from_str_plain_unit_witness :
  quantity_from_str " 2.0  erg/s "
  = match Unit (UnitSystem := units) "erg/s " with
    | Some u => Ok (mkQuantity (Finite 2) u)
    | None => Raise ValueError
    end.
Proof.
  apply (quantity_from_str_plain_unit " " "2.0" "  " "e" "rg/s " (Finite 2));
    first [reflexivity | discriminate].
Defined.

Lemma quantity_from_str_leading_space_witness :
  quantity_from_str "   2.0 erg/s" = quantity_from_str "2.0 erg/s".
Proof.
  apply (quantity_from_str_leading_space "   " "2.0 erg/s"). reflexivity.
Defined.

Lemma mapping_repeated_key_last_value_witness :
  OrderedDict.get [("c", Leaf (LStr "z")); ("a", Leaf (LStr "y"))] "c"
  = Some (Leaf (LStr "z")).
Proof.
  apply (mapping_repeated_key_last_value
           [("c", ScalarNode "tag:yaml.org,2002:str" "x");
            ("a", ScalarNode "tag:yaml.org,2002:str" "y")]
           [] "c" (ScalarNode "tag:yaml.org,2002:str" "z")).
  - intros [].
  - reflexivity.
  - reflexivity.
Defined.

Lemma parse_abundance_sorted_index_witness :
  StronglySorted Z.lt (map fst [(1%Z, Finite (1 # 2)); (8%Z, Finite (1 # 2))]).
Proof.
  apply (parse_abundance_sorted_index
           [("O", Finite (1 # 2)); ("H", Finite (1 # 2))]
           [(1%Z, Finite (1 # 2)); (8%Z, Finite (1 # 2))]).
  vm_compute. reflexivity.
Defined.

Lemma resolver_first_covers_witness :
  Re.starts_with_one_of Re.resolver_first "-3.2E10 erg/s" = true.
Proof.
  apply (resolver_first_covers "-3.2E10 erg/s"). right. vm_compute. reflexivity.
Defined.

Lemma resolvers_disjoint_witness :
  Re.matches Re.quantity_regex "-3.2E10" = false.
Proof. apply (resolvers_disjoint "-3.2E10"). vm_compute. reflexivity. Defined.

Lemma quantity_regex_splits_witness :
  exists value_str unit,
    PyStr.split_None_1 "1 log_lsun" = [value_str; unit]
    /\ Re.matches Re.float_regex value_str = true.
Proof.
  destruct (quantity_regex_splits (FL := floats) (US := units) "1 log_lsun")
    as (value_str & unit & Hsplit & Hfloat & _).
  - vm_compute. reflexivity.
  - now exists value_str, unit.
Defined.

(** ** The patterns on small inputs *)

Example float_regex_accepts :
  map (Re.matches Re.float_regex)
      ["5"; "-3.2E10"; "Infinity"; "NaN"; "+.5"; "5."; "1e5"; "-inf"; "nAn"]
  = [true; true; true; true; true; true; true; true; true].
Proof. vm_compute. reflexivity. Qed.

Example float_regex_refuses :
  map (Re.matches Re.float_regex)
      ["."; ""; "1e"; "5 erg"; "E5"; "+"; "Infin"; "1.2.3"; "5 "; "0x10"]
  = [false; false; false; false; false; false; false; false; false; false].
Proof. vm_compute. reflexivity. Qed.

Example quantity_regex_accepts :
  map (Re.matches Re.quantity_regex)
      ["5 erg/s"; "1 log_lsun"; "-3.2E10   cm"; "Inf K"; "2.0 erg / (s cm^2)";
       "5 1/s"; ".5 (cm)"]
  = [true; true; true; true; true; true; true].
Proof. vm_compute. reflexivity. Qed.

Example quantity_regex_refuses :
  map (Re.matches Re.quantity_regex)
      ["5"; "5 "; "erg"; "5 /s"; "5erg"; "5 2s"; " 5 erg"; "5 erg$"; "1e erg"]
  = [false; false; false; false; false; false; false; false; false].
Proof. vm_compute. reflexivity. Qed.

Example abundances_normalised :
  parse_abundance_dict_to_dataframe [("O", Finite 1); ("H", Finite 3)]
  = Ok [(1%Z, Finite (3 / 4)); (8%Z, Finite (1 / 4))].
Proof. vm_compute. reflexivity. Qed.

Example abundances_unknown_symbol :
  parse_abundance_dict_to_dataframe [("O", Finite 1); ("Xx", Finite 3)]
  = Raise (KeyError "Xx").
Proof. reflexivity. Qed.

Lemma loaded_tree_unique_keys_witness :
  unique_keys (PyDict [("c", Leaf (LStr "z")); ("a", Leaf (LStr "y"))]) = true.
Proof.
  apply (loaded_tree_unique_keys
           (MappingNode
              [("c", ScalarNode "tag:yaml.org,2002:str" "x");
               ("a", ScalarNode "tag:yaml.org,2002:str" "y");
               ("c", ScalarNode "tag:yaml.org,2002:str" "z")])).
  reflexivity.
Defined.

Lemma loaded_tree_equals_itself_witness :
  check_equality
    (PyDict
       [("c", Leaf (LStr "x")); ("a", PyList [Leaf (LFloat (Finite (1 # 2)))]);
        ("b", Leaf (LQuantity (mkQuantity (US := units) (Finite 2) "erg/s")))])
    (PyDict
       [("c", Leaf (LStr "x")); ("a", PyList [Leaf (LFloat (Finite (1 # 2)))]);
        ("b", Leaf (LQuantity (mkQuantity (US := units) (Finite 2) "erg/s")))])
  = Ok true.
Proof.
  apply (loaded_tree_equals_itself (MappingNode cab_pairs)).
  - exact String.eqb_refl.
  - reflexivity.
  - reflexivity.
Defined.

Lemma to_hdf_twice_witness :
  hdf_getitem (os_path_join "p" "scalars")
    (contents
       (fst (to_hdf "p" [("a", EScalar (SFloat (Finite 6)))] 9 "blosc"
               (fst (to_hdf "p" [("a", EScalar (SFloat (Finite 5)))]
                       9 "blosc" (mkHdf ∅ []))))))
  = Ok (Series
          (Series_of_dict (buffered [("a", EScalar (SFloat (Finite 5)))] ∅)
           ++ Series_of_dict
                (buffered [("a", EScalar (SFloat (Finite 6)))] ∅))).
Proof.
  apply (to_hdf_twice "p" [("a", EScalar (SFloat (Finite 5)))]
           [("a", EScalar (SFloat (Finite 6)))] 9 "blosc" (mkHdf ∅ [])).
  - discriminate.
  - discriminate.
  - intros key value [[= <- <-]|[]]. reflexivity.
  - intros key value [[= <- <-]|[]]. reflexivity.
  - reflexivity.
  - reflexivity.
  - intros obj file.
    split; [apply files_contains_put|apply files_getitem_put].
Defined.
